(** * Quizphere editor: the puzzle-piece list and the save pipeline

    A shallow embedding of two components of the quiz editor:

    - [PuzzleEditor] (components/QuizEditor/question-types/PuzzleEditor.tsx):
      the handlers that rewrite the ordered list of choices of a puzzle
      question;
    - [QuizEditor] (the editor shell): the handlers that rewrite the
      in-memory quiz and [handleSave], the sequence of HTTP requests that
      persists it.

    Arrays are lists, array indices are [nat], JavaScript numbers that the
    code uses as integers are [Z], values that may be [undefined] or [null]
    are [option].  Effects of [handleSave] are threaded through an explicit
    world (component state, local storage, the requests sent, the console
    and the toasts) by a small state-and-exception monad, which runs one
    call from start to end.  [handleSave] is [async]: what the handlers do
    between its start and its end is modelled by the steps of a session,
    which keeps the quiz that each pending call closed over. *)

From Stdlib Require Import String.
From Stdlib Require Import List Bool Arith ZArith QArith Lia.
From Stdlib Require Import Sorting.Permutation Sorting.Sorted.
From Stdlib Require Import Lqa.
Import ListNotations.

Local Open Scope string_scope.
Local Open Scope list_scope.
Local Open Scope nat_scope.

(* ================================================================= *)
(** ** The data model (types/quiz) *)

(** Modelled from the spec: types/quiz.ts is not part of the sources.  The
    fields are those of the spec's data model and those the handlers read
    or write; [min], [max] and [correctValue] are optional. *)
Module Choice.
Record t : Type := mk {
  id : string;
  text : string;
  isCorrect : bool;
  min : option Z;
  max : option Z;
  correctValue : option Z;
  order : Z
}.

(** [{ ...c, text: v }] *)
Definition with_text (v : string) (c : t) : t :=
  mk (id c) v (isCorrect c) (min c) (max c) (correctValue c) (order c).

(** [{ ...c, order: n }] *)
Definition with_order (n : Z) (c : t) : t :=
  mk (id c) (text c) (isCorrect c) (min c) (max c) (correctValue c) n.
End Choice.

(** Modelled from the spec: types/quiz.ts is not part of the sources.
    [explanation] and [imageUrls] are optional (the code guards both). *)
Module Question.
Record t : Type := mk {
  id : string;
  type : string;
  text : string;
  explanation : option string;
  imageUrls : option (list string);
  choices : list Choice.t
}.

(** [{ ...q, choices: cs }] *)
Definition with_choices (cs : list Choice.t) (q : t) : t :=
  mk (id q) (type q) (text q) (explanation q) (imageUrls q) cs.
End Question.

Inductive Status : Type := draft | published.

(** Modelled from the spec: types/quiz.ts is not part of the sources.
    [timeLimit] and [points] may be missing; [updatedAt] is a time stamp. *)
Module Quiz.
Record t : Type := mk {
  id : string;
  title : string;
  language : string;
  type : string;
  status : Status;
  timeLimit : option Z;
  points : option Z;
  questions : list Question.t;
  updatedAt : option Z
}.

(** [{ ...quiz, questions: qs }] *)
Definition with_questions (qs : list Question.t) (q : t) : t :=
  mk (id q) (title q) (language q) (type q) (status q) (timeLimit q)
     (points q) qs (updatedAt q).
End Quiz.

(* ================================================================= *)
(** ** Array primitives *)

Section Arrays.
Context {A : Type}.

(** [arr.splice(i, 1)]: the removed elements (at most one) and the array
    that is left.  Out of range nothing is removed. *)
Definition splice_out (i : nat) (l : list A) : option A * list A :=
  (nth_error l i, firstn i l ++ skipn (S i) l).

(** [arr.splice(i, 0, x)]: [x] is inserted before position [i], at the end
    when [i] is past the end. *)
Definition splice_in (i : nat) (x : A) (l : list A) : list A :=
  firstn i l ++ x :: skipn i l.

(** [arr.map((x, index) => f x index)], counting from [i]. *)
Fixpoint mapi_from (i : nat) {B : Type} (f : A -> nat -> B) (l : list A)
  : list B :=
  match l with
  | [] => []
  | x :: l' => f x i :: mapi_from (S i) f l'
  end.

(** [arr.sort(cmp)] with a comparator that returns a number: negative
    puts the first argument first, positive the second, zero keeps the
    order of the array (the sort is stable).  The algorithm is left to
    the engine; for a comparator that is a consistent ordering every
    stable sort returns the list of this insertion sort. *)
Fixpoint sort_insert (cmp : A -> A -> Q) (x : A) (l : list A) : list A :=
  match l with
  | [] => [x]
  | y :: l' =>
      if Qle_bool (cmp x y) 0 then x :: y :: l'
      else y :: sort_insert cmp x l'
  end.

Fixpoint sort_by (cmp : A -> A -> Q) (l : list A) : list A :=
  match l with
  | [] => []
  | x :: l' => sort_insert cmp x (sort_by cmp l')
  end.
(** [arr.findIndex(f)]: the index of the first element that [f] accepts,
    [-1] when there is none; [i] is the index of the head. *)
Fixpoint findIndex_from (f : A -> bool) (i : nat) (l : list A) : Z :=
  match l with
  | [] => (-1)%Z
  | x :: l' => if f x then Z.of_nat i else findIndex_from f (S i) l'
  end.

Definition findIndex (f : A -> bool) (l : list A) : Z := findIndex_from f 0 l.

(** The comparator [cmp] lets [a] stand before [b]. *)
Definition before (cmp : A -> A -> Q) (a b : A) : Prop :=
  Qle_bool (cmp a b) 0 = true.

(** The comparator [(a, b) => key(a) - key(b)] for an integer key. *)
Definition by_key (key : A -> Z) (a b : A) : Q := inject_Z (key a - key b).
End Arrays.

(* ================================================================= *)
(** ** PuzzleEditor *)

Module PuzzleEditor.

(** The component: the [choices] prop and the [draggedIndex] state. *)
Record Props : Type := mkProps {
  choices : list Choice.t;
  draggedIndex : option nat
}.

(** What a handler passes to [onChange].  An array read out of range gives
    [undefined], so the array that [handleDrop] builds holds
    [Choice | undefined]. *)
Definition Emitted : Type := option (list (option Choice.t)).

Definition handleAddChoice (uuid : string) (choices : list Choice.t)
  : list Choice.t :=
  let newChoice :=
    Choice.mk uuid "" true None None None (Z.of_nat (length choices)) in
  choices ++ [newChoice].

Definition handleDeleteChoice (choiceId : string) (choices : list Choice.t)
  : list Choice.t :=
  mapi_from 0 (fun choice index => Choice.with_order (Z.of_nat index) choice)
    (filter (fun choice => negb (String.eqb (Choice.id choice) choiceId))
            choices).

Definition handleDragStart (index : nat) (p : Props) : Props :=
  mkProps (choices p) (Some index).

Definition handleDragEnd (p : Props) : Props :=
  mkProps (choices p) None.

(** [None]: [onChange] is not called. *)
Definition handleDrop (dropIndex : nat) (p : Props) : Emitted :=
  match draggedIndex p with
  | None => None
  | Some dragged =>
      let newChoices := map Some (choices p) in
      let '(removed, newChoices) := splice_out dragged newChoices in
      let draggedChoice :=
        match removed with Some c => c | None => None end in
      Some (splice_in dropIndex draggedChoice newChoices)
  end.

(** [random i] is the value of the [i]-th call of [Math.random()]. *)
Definition handleShuffle (random : nat -> Q) (choices : list Choice.t)
  : list Choice.t :=
  map fst
    (sort_by (fun a b => snd a - snd b)%Q
       (mapi_from 0 (fun value i => (value, random i)) choices)).

(** The [onChange] of the text input of the piece [choiceId]. *)
Definition handleTextChange (choiceId : string) (value : string)
    (choices : list Choice.t) : list Choice.t :=
  map (fun c => if String.eqb (Choice.id c) choiceId
                then Choice.with_text value c else c) choices.

(** The mutations of the list that the component offers. *)
Inductive Mutation : Type :=
| AddChoice (uuid : string)
| DeleteChoice (choiceId : string)
| Drop (dropIndex : nat)
| Shuffle (random : nat -> Q)
| EditText (choiceId value : string).

Definition mutate (m : Mutation) (p : Props) : Emitted :=
  match m with
  | AddChoice uuid => Some (map Some (handleAddChoice uuid (choices p)))
  | DeleteChoice i => Some (map Some (handleDeleteChoice i (choices p)))
  | Drop k => handleDrop k p
  | Shuffle r => Some (map Some (handleShuffle r (choices p)))
  | EditText i v => Some (map Some (handleTextChange i v (choices p)))
  end.

(** The drag in progress, if any, started on a piece of the list. *)
Definition drag_valid (p : Props) : Prop :=
  match draggedIndex p with
  | None => True
  | Some d => d < length (choices p)
  end.

(** A drop on a piece of the list, with no drag or a drag that started on
    a piece of the list. *)
Definition drop_valid (dropIndex : nat) (p : Props) : Prop :=
  match draggedIndex p with
  | None => True
  | Some d => d < length (choices p) /\ dropIndex < length (choices p)
  end.

(** The order fields are exactly 0, ..., n-1, each once. *)
Definition dense (l : list Choice.t) : Prop :=
  Permutation (map Choice.order l) (map Z.of_nat (seq 0 (length l))).

(** The element at [from] taken out and put back at [to]. *)
Definition move {A : Type} (from to : nat) (l : list A) : list A :=
  match nth_error l from with
  | Some x => splice_in to x (snd (splice_out from l))
  | None => l
  end.

(** [a.order || 0] *)
Definition order_or_zero (c : Choice.t) : Z :=
  if Z.eqb (Choice.order c) 0 then 0%Z else Choice.order c.

(** [[...choices].sort((a, b) => (a.order || 0) - (b.order || 0))]: the
    pieces in the correct sequence. *)
Definition sortedChoices (choices : list Choice.t) : list Choice.t :=
  sort_by (fun a b => inject_Z (order_or_zero a - order_or_zero b)) choices.

(** [sortedChoices.findIndex(c => c.id === choice.id) + 1]: the number
    shown in the green badge of a piece. *)
Definition correctPosition (choices : list Choice.t) (choice : Choice.t) : Z :=
  (findIndex (fun c => String.eqb (Choice.id c) (Choice.id choice))
             (sortedChoices choices) + 1)%Z.

End PuzzleEditor.

(* ================================================================= *)
(** ** QuizEditor: the editor shell *)

Module QuizEditor.

(** *** HTTP *)

Inductive Method : Type := DELETE | POST.

(** The JSON bodies that [handleSave] sends. *)
Inductive Body : Type :=
| NoBody
| QuizBody (user_id title language type : string) (status : Status)
           (timeLimit points : Z)
| QuestionBody (quiz_id type text explanation : string)
| ImageBody (question_id image_url : string)
| ChoiceBody (question_id text : string) (is_correct : bool)
             (min max correctValue : option Z) (order : Z).

Record Request : Type := mkRequest {
  url : string;
  method : Method;
  headers : list (string * string);
  body : Body
}.

(** What the handler reads of a parsed response body: the identifier the
    backend assigned.  A body that can be read but is no such object (as
    [null], off which reading the identifier throws a TypeError) is not
    modelled. *)
Record Json : Type := mkJson {
  quiz_id : string;
  question_id : string
}.

(** [json = None]: [response.json()] rejects. *)
Record Response : Type := mkResponse {
  ok : bool;
  json : option Json
}.

(** [fetch] resolves with a response or rejects (network error). *)
Inductive FetchResult : Type :=
| Rejected
| Resolved (r : Response).

(** The backend: its answer to a request, given the requests before it. *)
Definition Server : Type := list Request -> Request -> FetchResult.

(** *** The world of the component *)

Inductive Step : Type :=
| step_quiz | step_questions | step_images | step_choices.

Record SaveProgress : Type := mkProgress {
  step : Step;
  current : nat;
  total : nat
}.

Inductive Exn : Type :=
| JsError (message : string)   (* [new Error(message)] *)
| FetchRejected                (* [fetch] rejected *)
| JsonRejected.                (* [response.json()] rejected *)

Inductive LogEntry : Type :=
| log_error (message : string) (reason : option Exn)
| log_warn (message : string).

(** [toast({ title, description, variant })]; [variant] may be left out. *)
Record Toast : Type := mkToast {
  toast_title : string;
  toast_description : string;
  toast_variant : option string
}.

Record World : Type := mkWorld {
  quiz : Quiz.t;                         (* useState(initialQuiz) *)
  selectedQuestionId : option string;
  isSaving : bool;
  saveProgress : option SaveProgress;
  currentQuizId : option string;         (* localStorage 'currentQuizId' *)
  requests : list Request;               (* every request sent, oldest first *)
  console : list LogEntry;
  toasts : list Toast;
  saved : list Quiz.t                    (* the calls of the [onSave] prop *)
}.

(** What the component reads but does not own: the auth store, the
    backend and the clock. *)
Record Env : Type := mkEnv {
  userId : option string;
  accessToken : option string;
  server : Server;
  now : Z
}.

(** *** The quiz handlers *)

Definition setQuiz (f : Quiz.t -> Quiz.t) (w : World) : World :=
  mkWorld (f (quiz w)) (selectedQuestionId w) (isSaving w) (saveProgress w)
          (currentQuizId w) (requests w) (console w) (toasts w) (saved w).

Definition setSelectedQuestionId (s : option string) (w : World) : World :=
  mkWorld (quiz w) s (isSaving w) (saveProgress w)
          (currentQuizId w) (requests w) (console w) (toasts w) (saved w).

Definition handleQuestionUpdate (updatedQuestion : Question.t) (w : World)
  : World :=
  setQuiz (fun prev =>
    Quiz.with_questions
      (map (fun q => if String.eqb (Question.id q) (Question.id updatedQuestion)
                     then updatedQuestion else q)
           (Quiz.questions prev)) prev) w.

Definition handleAddQuestion (uuid : string) (w : World) : World :=
  let newQuestion :=
    Question.mk uuid (Quiz.type (quiz w)) "" None None [] in
  setSelectedQuestionId (Some (Question.id newQuestion))
    (setQuiz (fun prev =>
       Quiz.with_questions (Quiz.questions prev ++ [newQuestion]) prev) w).

Definition handleDeleteQuestion (questionId : string) (w : World) : World :=
  let w' :=
    setQuiz (fun prev =>
      Quiz.with_questions
        (filter (fun q => negb (String.eqb (Question.id q) questionId))
                (Quiz.questions prev)) prev) w in
  match selectedQuestionId w with
  | Some s => if String.eqb s questionId
              then setSelectedQuestionId None w' else w'
  | None => w'
  end.

Definition handleReorderQuestions (reorderedQuestions : list Question.t)
    (w : World) : World :=
  setQuiz (fun prev => Quiz.with_questions reorderedQuestions prev) w.

Definition handleQuizUpdate (updatedQuiz : Quiz.t) (w : World) : World :=
  setQuiz (fun _ => updatedQuiz) w.

(** *** State and exceptions *)

Inductive Outcome (A : Type) : Type :=
| Val (a : A)
| Throw (e : Exn).
Arguments Val {A} a.
Arguments Throw {A} e.

Definition M (A : Type) : Type := World -> Outcome A * World.

Definition ret {A} (a : A) : M A := fun w => (Val a, w).

Definition bind {A B} (m : M A) (k : A -> M B) : M B :=
  fun w =>
    match m w with
    | (Val a, w') => k a w'
    | (Throw e, w') => (Throw e, w')
    end.

Definition throw {A} (e : Exn) : M A := fun w => (Throw e, w).

(** [try { m } catch (e) { h e }] *)
Definition try_catch {A} (m : M A) (h : Exn -> M A) : M A :=
  fun w =>
    match m w with
    | (Val a, w') => (Val a, w')
    | (Throw e, w') => h e w'
    end.

(** [try { m } finally { f }], for an [f] that neither throws nor
    returns. *)
Definition try_finally {A} (m : M A) (f : World -> World) : M A :=
  fun w => let '(o, w') := m w in (o, f w').

Definition modify (f : World -> World) : M unit := fun w => (Val tt, f w).

Notation "x <- m ;; k" := (bind m (fun x => k))
  (at level 61, m at next level, right associativity).
Notation "m ;; k" := (bind m (fun _ => k))
  (at level 61, right associativity).

Definition setIsSaving (b : bool) (w : World) : World :=
  mkWorld (quiz w) (selectedQuestionId w) b (saveProgress w)
          (currentQuizId w) (requests w) (console w) (toasts w) (saved w).

Definition setSaveProgress (p : option SaveProgress) (w : World) : World :=
  mkWorld (quiz w) (selectedQuestionId w) (isSaving w) p
          (currentQuizId w) (requests w) (console w) (toasts w) (saved w).

Definition setItem_currentQuizId (v : string) (w : World) : World :=
  mkWorld (quiz w) (selectedQuestionId w) (isSaving w) (saveProgress w)
          (Some v) (requests w) (console w) (toasts w) (saved w).

Definition sent (r : Request) (w : World) : World :=
  mkWorld (quiz w) (selectedQuestionId w) (isSaving w) (saveProgress w)
          (currentQuizId w) (requests w ++ [r]) (console w) (toasts w)
          (saved w).

Definition logged (l : LogEntry) (w : World) : World :=
  mkWorld (quiz w) (selectedQuestionId w) (isSaving w) (saveProgress w)
          (currentQuizId w) (requests w) (console w ++ [l]) (toasts w)
          (saved w).

Definition toasted (t : Toast) (w : World) : World :=
  mkWorld (quiz w) (selectedQuestionId w) (isSaving w) (saveProgress w)
          (currentQuizId w) (requests w) (console w) (toasts w ++ [t])
          (saved w).

Definition onSave (q : Quiz.t) (w : World) : World :=
  mkWorld (quiz w) (selectedQuestionId w) (isSaving w) (saveProgress w)
          (currentQuizId w) (requests w) (console w) (toasts w)
          (saved w ++ [q]).

(** [await fetch(...)]: the request is sent, then the backend's answer is
    awaited; a rejection is thrown at the [await]. *)
Definition fetch (srv : Server) (r : Request) : M Response :=
  fun w =>
    match srv (requests w) r with
    | Rejected => (Throw FetchRejected, sent r w)
    | Resolved resp => (Val resp, sent r w)
    end.

(** [await response.json()] *)
Definition parse (resp : Response) : M Json :=
  match json resp with
  | Some j => ret j
  | None => throw JsonRejected
  end.

(** *** JavaScript truthiness *)

Definition truthy (s : option string) : bool :=
  match s with
  | Some v => negb (String.eqb v "")
  | None => false
  end.

(** [s || ''] *)
Definition or_empty (s : option string) : string :=
  match s with Some v => v | None => "" end.

(** [n || d] on numbers: [undefined] and [0] give [d]. *)
Definition or_default (n : option Z) (d : Z) : Z :=
  match n with
  | Some v => if Z.eqb v 0 then d else v
  | None => d
  end.

(** *** handleSave *)

Definition api : string := "http://localhost:8001".

Definition bearer (token : string) : string * string :=
  ("Authorization", ("Bearer " ++ token)%string).

Definition deleteRequest (token existingQuizId : string) : Request :=
  mkRequest (api ++ "/quizzes/" ++ existingQuizId)%string DELETE [bearer token]
            NoBody.

Definition postRequest (token path : string) (b : Body) : Request :=
  mkRequest (api ++ path)%string POST
            [("Content-Type", "application/json"); bearer token] b.

Definition quizRequest (token user : string) (quiz : Quiz.t) : Request :=
  postRequest token "/quizzes/"
    (QuizBody user (Quiz.title quiz) (Quiz.language quiz) (Quiz.type quiz)
              draft
              (or_default (Quiz.timeLimit quiz) 30)
              (or_default (Quiz.points quiz) 10)).

Definition questionRequest (token quizId : string) (question : Question.t)
  : Request :=
  postRequest token "/questions"
    (QuestionBody quizId (Question.type question) (Question.text question)
                  (or_empty (Question.explanation question))).

Definition imageRequest (token questionId imageUrl : string) : Request :=
  postRequest token "/question-images" (ImageBody questionId imageUrl).

Definition choiceRequest (token questionId : string) (choice : Choice.t)
  : Request :=
  postRequest token "/choices"
    (ChoiceBody questionId (Choice.text choice) (Choice.isCorrect choice)
                (Choice.min choice) (Choice.max choice)
                (Choice.correctValue choice) (Choice.order choice)).

Definition progress (s : Step) (current total : nat) : M unit :=
  modify (setSaveProgress (Some (mkProgress s current total))).

Section Save.
Variable env : Env.

(** The string held by a value that was tested truthy. *)
Definition token : string := or_empty (accessToken env).
Definition user : string := or_empty (userId env).

(** [for (let j = ...; j < question.imageUrls.length; j++)], from [j] on. *)
Fixpoint saveImages (questionId : string) (imageUrls : list string)
    (j total : nat) : M unit :=
  match imageUrls with
  | [] => ret tt
  | imageUrl :: rest =>
      progress step_images (j + 1) total ;;
      _ <- fetch (server env) (imageRequest token questionId imageUrl) ;;
      saveImages questionId rest (S j) total
  end.

(** [for (let k = ...; k < question.choices.length; k++)], from [k] on. *)
Fixpoint saveChoices (questionId : string) (choices : list Choice.t)
    (k total : nat) : M unit :=
  match choices with
  | [] => ret tt
  | choice :: rest =>
      progress step_choices (k + 1) total ;;
      _ <- fetch (server env) (choiceRequest token questionId choice) ;;
      saveChoices questionId rest (S k) total
  end.

(** [if (question.imageUrls && question.imageUrls.length > 0) { ... }] *)
Definition saveImagesOf (questionId : string) (question : Question.t)
  : M unit :=
  match Question.imageUrls question with
  | Some ((_ :: _) as imageUrls) =>
      progress step_images 0 (length imageUrls) ;;
      saveImages questionId imageUrls 0 (length imageUrls)
  | _ => ret tt
  end.

(** [for (let i = ...; i < quiz.questions.length; i++)], from [i] on. *)
Fixpoint saveQuestions (quizId : string) (questions : list Question.t)
    (i total : nat) : M unit :=
  match questions with
  | [] => ret tt
  | question :: rest =>
      progress step_questions (i + 1) total ;;
      questionResponse <-
        fetch (server env) (questionRequest token quizId question) ;;
      (if negb (ok questionResponse)
       then throw (JsError ("Failed to save question: "
                              ++ Question.id question)%string)
       else ret tt) ;;
      savedQuestionData <- parse questionResponse ;;
      let questionId := question_id savedQuestionData in
      saveImagesOf questionId question ;;
      progress step_choices 0 (length (Question.choices question)) ;;
      saveChoices questionId (Question.choices question) 0
                  (length (Question.choices question)) ;;
      saveQuestions quizId rest (S i) total
  end.

(** Step 1: the previously saved quiz is deleted, best effort. *)
Definition deleteExisting (existingQuizId : option string) : M unit :=
  if truthy existingQuizId then
    try_catch
      (response <-
         fetch (server env) (deleteRequest token (or_empty existingQuizId)) ;;
       if negb (ok response)
       then modify (logged (log_warn "Failed to delete existing quiz"))
       else ret tt)
      (fun deleteError =>
         modify (logged (log_error "Error deleting existing quiz:"
                                   (Some deleteError))))
  else ret tt.

Definition updatedQuiz (quiz : Quiz.t) (quizId : string) : Quiz.t :=
  Quiz.mk quizId (Quiz.title quiz) (Quiz.language quiz) (Quiz.type quiz)
          draft (Quiz.timeLimit quiz) (Quiz.points quiz)
          (Quiz.questions quiz) (Some (now env)).

Definition error_toast : Toast :=
  mkToast "Error" "Failed to save quiz. Please try again."
          (Some "destructive").

Definition success_toast : Toast :=
  mkToast "Success" "Quiz saved successfully" None.

(** The [try] block; [quiz] is the state the handler closed over. *)
Definition savePipeline (quiz : Quiz.t) : M (option Quiz.t) :=
  fun w0 =>
  let existingQuizId := currentQuizId w0 in
  (progress step_quiz 0 1 ;;
   deleteExisting existingQuizId ;;
   progress step_quiz 1 1 ;;
   quizResponse <- fetch (server env) (quizRequest token user quiz) ;;
   (if negb (ok quizResponse)
    then throw (JsError "Failed to save quiz") else ret tt) ;;
   savedQuizData <- parse quizResponse ;;
   let quizId := quiz_id savedQuizData in
   modify (setItem_currentQuizId quizId) ;;
   progress step_questions 0 (length (Quiz.questions quiz)) ;;
   saveQuestions quizId (Quiz.questions quiz) 0
                 (length (Quiz.questions quiz)) ;;
   let updatedQuiz := updatedQuiz quiz quizId in
   modify (setQuiz (fun _ => updatedQuiz)) ;;
   modify (onSave updatedQuiz) ;;
   modify (toasted success_toast) ;;
   ret (Some updatedQuiz)) w0.

Definition handleSave : M (option Quiz.t) :=
  fun w0 =>
  if negb (truthy (userId env)) || negb (truthy (accessToken env)) then
    (modify (logged (log_error "User not authenticated" None)) ;;
     ret None) w0
  else
    (modify (setIsSaving true) ;;
     try_finally
       (try_catch (savePipeline (quiz w0))
          (fun error =>
             modify (logged (log_error "Error saving quiz:" (Some error))) ;;
             modify (toasted error_toast) ;;
             throw error))
       (fun w => setSaveProgress None (setIsSaving false w))) w0.
End Save.

(** *** The save sequence as the specification words it *)

(** The requests for one question whose record got the identifier
    [questionId]: the question, then its images, then its choices. *)
Definition question_plan (token quizId : string)
    (qi : Question.t * string) : list Request :=
  let '(question, questionId) := qi in
  questionRequest token quizId question
    :: map (imageRequest token questionId)
           (match Question.imageUrls question with
            | Some urls => urls | None => [] end)
    ++ map (choiceRequest token questionId) (Question.choices question).

(** The optional delete of the previous quiz. *)
Definition delete_plan (token : string) (existingQuizId : option string)
  : list Request :=
  if truthy existingQuizId
  then [deleteRequest token (or_empty existingQuizId)] else [].

(** The whole sequence, for a quiz that got [quizId] and questions that
    got [questionIds]. *)
Definition save_plan (token user : string) (existingQuizId : option string)
    (quiz : Quiz.t) (quizId : string) (questionIds : list string)
  : list Request :=
  delete_plan token existingQuizId
    ++ quizRequest token user quiz
    :: concat (map (question_plan token quizId)
                   (combine (Quiz.questions quiz) questionIds)).

Definition is_create (r : Request) : bool :=
  match method r with POST => true | DELETE => false end.

(** A request that did not go through: no response, a status that is not
    ok, or a body that cannot be read. *)
Definition failed (r : FetchResult) : bool :=
  match r with
  | Rejected => true
  | Resolved resp =>
      negb (ok resp) || match json resp with Some _ => false | None => true end
  end.

(** *** The identifiers in a quiz and the operations of the editor *)

Definition choice_ids (choices : list Choice.t) : list string :=
  map Choice.id choices.

(** The identifier of a question, then those of its choices. *)
Definition question_ids (q : Question.t) : list string :=
  Question.id q :: choice_ids (Question.choices q).

(** Every identifier of a question or a choice of the quiz. *)
Definition quiz_ids (quiz : Quiz.t) : list string :=
  flat_map question_ids (Quiz.questions quiz).

(** The handlers that change the quiz in memory, with their arguments.
    [uuid] is what [crypto.randomUUID()] returned.  Each of them runs from
    start to end without an [await]. *)
Inductive Op : Type :=
| AddQuestion (uuid : string)
| DeleteQuestion (questionId : string)
| ReorderQuestions (reorderedQuestions : list Question.t)
| QuestionUpdate (updatedQuestion : Question.t)
| QuizUpdate (updatedQuiz : Quiz.t).

Definition run_op (op : Op) (w : World) : World :=
  match op with
  | AddQuestion uuid => handleAddQuestion uuid w
  | DeleteQuestion questionId => handleDeleteQuestion questionId w
  | ReorderQuestions reorderedQuestions =>
      handleReorderQuestions reorderedQuestions w
  | QuestionUpdate updatedQuestion => handleQuestionUpdate updatedQuestion w
  | QuizUpdate updatedQuiz => handleQuizUpdate updatedQuiz w
  end.

(** *** Saves that overlap the editing

    [handleSave] is [async]: it stops at each [await] and the handlers
    above run in between (only the Save button is disabled while
    [isSaving]).  It reads [quiz] from the render it was created in, so the
    requests are built from that quiz whatever the handlers do meanwhile,
    and its last step, [setQuiz(updatedQuiz)], puts that quiz back. *)

(** The world shown and, for each call of [handleSave] that has not ended,
    the quiz it closed over, oldest first. *)
Record Session : Type := mkSession {
  shown : World;
  closed_over : list Quiz.t
}.

Inductive Event : Type :=
| Handler (op : Op)
    (* a handler runs *)
| SaveStarts
    (* [handleSave] is called and gets past the guard *)
| SaveReturns (env : Env) (n : nat) (quizId : string)
    (* the [n]-th pending call, whose quiz got [quizId], returns *)
| SaveEnds (n : nat).
    (* the [n]-th pending call throws *)

Definition remove_nth {A : Type} (n : nat) (l : list A) : list A :=
  firstn n l ++ skipn (S n) l.

(** A pending save changes neither the quiz nor the selection before its
    last step; what it has done by then to the flags, the storage, the
    requests, the console and the toasts is left open here, since the
    requests of overlapping saves interleave. *)
Definition same_edits (w w' : World) : Prop :=
  quiz w' = quiz w /\ selectedQuestionId w' = selectedQuestionId w.

Inductive session_step : Session -> Event -> Session -> Prop :=
| session_handler s op :
    session_step s (Handler op) (mkSession (run_op op (shown s)) (closed_over s))
| session_save_starts s w' :
    same_edits (shown s) w' ->
    session_step s SaveStarts (mkSession w' (closed_over s ++ [quiz (shown s)]))
| session_save_returns s env n quizId closed w' :
    nth_error (closed_over s) n = Some closed ->
    quiz w' = updatedQuiz env closed quizId ->
    selectedQuestionId w' = selectedQuestionId (shown s) ->
    session_step s (SaveReturns env n quizId)
         (mkSession w' (remove_nth n (closed_over s)))
| session_save_ends s n closed w' :
    nth_error (closed_over s) n = Some closed ->
    same_edits (shown s) w' ->
    session_step s (SaveEnds n) (mkSession w' (remove_nth n (closed_over s))).

(** The end of a save that closed over [closed] and that no other save
    overlaps, in the world [w] that the handlers have left: the requests
    are those for [closed], and the quiz of [w] stays unless the save
    returns. *)
Definition resume (env : Env) (closed : Quiz.t) (w : World)
  : Outcome (option Quiz.t) * World :=
  let '(outcome, w') := handleSave env (setQuiz (fun _ => closed) w) in
  match outcome with
  | Val (Some _) => (outcome, w')
  | _ => (outcome, setQuiz (fun _ => quiz w) w')
  end.

(** *** Identifiers, as the specification words them *)

(** An identifier that a mutation of the PuzzleEditor generates is not among
    [used]. *)
Definition fresh_for (used : list string) (m : PuzzleEditor.Mutation) : Prop :=
  match m with
  | PuzzleEditor.AddChoice uuid => ~ In uuid used
  | _ => True
  end.

(** The identifiers of the choices before and after a mutation of the
    PuzzleEditor: an add generates one, at the end; a delete removes the one
    given; a drop and a shuffle move them; a text edit leaves them. *)
Definition choice_ids_after (m : PuzzleEditor.Mutation)
    (before after : list string) : Prop :=
  match m with
  | PuzzleEditor.AddChoice uuid => after = before ++ [uuid]
  | PuzzleEditor.DeleteChoice choiceId =>
      after = filter (fun i => negb (String.eqb i choiceId)) before
  | PuzzleEditor.Drop _ | PuzzleEditor.Shuffle _ => Permutation before after
  | PuzzleEditor.EditText _ _ => after = before
  end.

(** The identifiers of the quiz shown after an event: an add generates
    one, at the end; a delete removes those of the question deleted; the
    handlers that store what they are given leave the identifiers of what
    they are given; a save that returns leaves those of the quiz it closed
    over; nothing else changes them. *)
Definition ids_after (s : Session) (ev : Event) : list string :=
  let questions := Quiz.questions (quiz (shown s)) in
  match ev with
  | Handler (AddQuestion uuid) => quiz_ids (quiz (shown s)) ++ [uuid]
  | Handler (DeleteQuestion questionId) =>
      flat_map (fun q => if String.eqb (Question.id q) questionId
                         then [] else question_ids q) questions
  | Handler (ReorderQuestions reorderedQuestions) =>
      flat_map question_ids reorderedQuestions
  | Handler (QuestionUpdate updatedQuestion) =>
      flat_map (fun q => if String.eqb (Question.id q)
                                       (Question.id updatedQuestion)
                         then question_ids updatedQuestion
                         else question_ids q) questions
  | Handler (QuizUpdate updatedQuiz) => quiz_ids updatedQuiz
  | SaveReturns _ n _ =>
      match nth_error (closed_over s) n with
      | Some closed => quiz_ids closed
      | None => quiz_ids (quiz (shown s))
      end
  | SaveStarts | SaveEnds _ => quiz_ids (quiz (shown s))
  end.

(** The handlers that store the value they are given. *)
Definition stores (op : Op) : bool :=
  match op with
  | ReorderQuestions _ | QuestionUpdate _ | QuizUpdate _ => true
  | AddQuestion _ | DeleteQuestion _ => false
  end.

(** The events of a session in which identifiers come from the generator
    only.  The components that call the handlers with a value of their own
    (QuestionList, QuestionEditor, QuizSettings) are not part of the
    sources; what is asked of them is written out here:
    - a generated identifier is fresh;
    - the QuestionEditor hands the list of choices that a mutation of the
      PuzzleEditor emitted for the choices of a question to
      [handleQuestionUpdate], as the choices of that question;
    - any other value handed to [handleQuestionUpdate],
      [handleReorderQuestions] or [handleQuizUpdate] leaves identifiers
      that are pairwise distinct. *)
Inductive issued (s : Session) : Event -> Prop :=
| issued_add uuid :
    ~ In uuid (quiz_ids (quiz (shown s))) ->
    issued s (Handler (AddQuestion uuid))
| issued_delete questionId :
    issued s (Handler (DeleteQuestion questionId))
| issued_puzzle q p m choices' :
    In q (Quiz.questions (quiz (shown s))) ->
    PuzzleEditor.choices p = Question.choices q ->
    fresh_for (quiz_ids (quiz (shown s))) m ->
    PuzzleEditor.mutate m p = Some (map Some choices') ->
    issued s (Handler (QuestionUpdate (Question.with_choices choices' q)))
| issued_given op :
    stores op = true ->
    NoDup (ids_after s (Handler op)) ->
    issued s (Handler op)
| issued_save_starts :
    issued s SaveStarts
| issued_save_returns env n quizId :
    issued s (SaveReturns env n quizId)
| issued_save_ends n :
    issued s (SaveEnds n).

(** The identifiers of the quiz shown are pairwise distinct, and so are
    those of each quiz that a pending save closed over. *)
Definition distinct_ids (s : Session) : Prop :=
  NoDup (quiz_ids (quiz (shown s)))
  /\ Forall (fun closed => NoDup (quiz_ids closed)) (closed_over s).

(** *** Vocabulary for the runs of [handleSave] *)

(** The world once the requests [rs] are sent and the progress shown is
    [sp], all else as in [w]. *)
Definition after_requests (w : World) (rs : list Request)
    (sp : option SaveProgress) : World :=
  mkWorld (quiz w) (selectedQuestionId w) (isSaving w) sp
          (currentQuizId w) (requests w ++ rs) (console w) (toasts w)
          (saved w).

(** What the delete step writes on the console for an answer. *)
Definition delete_log (r : FetchResult) : list LogEntry :=
  match r with
  | Rejected => [log_error "Error deleting existing quiz:" (Some FetchRejected)]
  | Resolved resp =>
      if ok resp then [] else [log_warn "Failed to delete existing quiz"]
  end.

(** What the delete step of a save writes on the console. *)
Definition delete_step_log (srv : Server) (token : string)
    (history : list Request) (existingQuizId : option string)
  : list LogEntry :=
  if truthy existingQuizId
  then delete_log (srv history (deleteRequest token (or_empty existingQuizId)))
  else [].

(** [srv] answers [req], after [history], with an ok response whose body
    holds the identifier [idOf body]. *)
Definition assigns (srv : Server) (history : list Request) (req : Request)
    (idOf : Json -> string) (assigned : string) : Prop :=
  exists resp j,
    srv history req = Resolved resp /\ ok resp = true
    /\ json resp = Some j /\ idOf j = assigned.

(** Each identifier of [questionIds] is the one the backend assigned to
    the question of the same rank, asked once the requests of the
    questions before it were sent. *)
Fixpoint assigned_in_turn (srv : Server) (history : list Request)
    (token quizId : string) (questions : list Question.t)
    (questionIds : list string) : Prop :=
  match questions, questionIds with
  | [], [] => True
  | question :: questions', questionId :: questionIds' =>
      assigns srv history (questionRequest token quizId question)
              question_id questionId
      /\ assigned_in_turn srv
           (history ++ question_plan token quizId (question, questionId))
           token quizId questions' questionIds'
  | _, _ => False
  end.

(** Each request of [rs], sent in turn after [history], got a response:
    the [fetch] resolved, with whatever status. *)
Fixpoint answered_in_turn (srv : Server) (history rs : list Request)
  : Prop :=
  match rs with
  | [] => True
  | r :: rs' =>
      (exists resp, srv history r = Resolved resp)
      /\ answered_in_turn srv (history ++ [r]) rs'
  end.

(** How a run of a part of the pipeline ends, from the world [w], when its
    result is [res]: only requests and the progress shown have changed,
    every request sent is a create, and either the part returned, the
    requests are those [P] describes and each of them got a response
    before the next was sent, or it threw and the last request sent is one
    that did not go through. *)
Definition run_from {A : Type} (srv : Server) (w : World)
    (res : Outcome A * World) (P : list Request -> Prop) : Prop :=
  exists rs sp,
    snd res = after_requests w rs sp
    /\ Forall (fun r => is_create r = true) rs
    /\ match fst res with
       | Val _ => P rs /\ answered_in_turn srv (requests w) rs
       | Throw _ =>
           exists pre req,
             rs = pre ++ [req]
             /\ failed (srv (requests w ++ pre) req) = true
       end.

(** *** The rest of the shell: the main pane, the modals and the router *)

(** What the main pane renders: the placeholder, or the QuestionEditor on
    [quiz.questions.find(q => q.id === selectedQuestionId)!], which is
    [undefined] when no question has that identifier. *)
Inductive Pane : Type :=
| placeholder
| editor (question : option Question.t).

Definition mainPane (w : World) : Pane :=
  if truthy (selectedQuestionId w)
  then editor (find (fun q => String.eqb (Question.id q)
                                         (or_empty (selectedQuestionId w)))
                    (Quiz.questions (quiz w)))
  else placeholder.

(** [localStorage.removeItem('currentQuizId')] *)
Definition removeItem_currentQuizId (w : World) : World :=
  mkWorld (quiz w) (selectedQuestionId w) (isSaving w) (saveProgress w)
          None (requests w) (console w) (toasts w) (saved w).

(** The world, the two modal flags and the calls of [navigate], each with
    the quiz it passes as state, if any. *)
Record Shell : Type := mkShell {
  world : World;
  showSettings : bool;
  showUnsavedChangesModal : bool;
  navigated : list (string * option Quiz.t)
}.

Definition handleBackToDashboard (s : Shell) : Shell :=
  let currentQuizId := currentQuizId (world s) in
  if negb (truthy currentQuizId) then
    mkShell (world s) (showSettings s) true (navigated s)
  else
    mkShell (removeItem_currentQuizId (world s)) (showSettings s)
            (showUnsavedChangesModal s) (navigated s ++ [("/", None)]).

Definition handleContinueWithoutSave (s : Shell) : Shell :=
  mkShell (removeItem_currentQuizId (world s)) (showSettings s) false
          (navigated s ++ [("/", None)]).

Definition save_and_continue_toast : Toast :=
  mkToast "Error" "Failed to save the quiz. Please try again."
          (Some "destructive").

(** [try { await handleSave(); ... } catch (error) { ... }]: what
    [handleSave] throws is caught here, logged and shown. *)
Definition handleSaveAndContinue (env : Env) (s : Shell) : Shell :=
  match handleSave env (world s) with
  | (Val _, w') =>
      mkShell (removeItem_currentQuizId w') (showSettings s) false
              (navigated s ++ [("/", None)])
  | (Throw error, w') =>
      mkShell (toasted save_and_continue_toast
                 (logged (log_error "Error saving quiz:" (Some error)) w'))
              (showSettings s) (showUnsavedChangesModal s) (navigated s)
  end.

Definition handlePreview (s : Shell) : Shell :=
  mkShell (world s) (showSettings s) (showUnsavedChangesModal s)
          (navigated s ++ [("/preview", Some (quiz (world s)))]).

(** *** Vocabulary for further properties *)

(** What an event puts in the place of the quiz still holds a question
    for every identifier the quiz has: the list or quiz that a component
    outside the sources hands in, or the quiz that a returning save closed
    over (no question was added since it started). *)
Definition keeps_question_ids (s : Session) (ev : Event) : Prop :=
  let ids := map Question.id (Quiz.questions (quiz (shown s))) in
  match ev with
  | Handler (ReorderQuestions reordered) =>
      incl ids (map Question.id reordered)
  | Handler (QuizUpdate updated) =>
      incl ids (map Question.id (Quiz.questions updated))
  | SaveReturns _ n _ =>
      match nth_error (closed_over s) n with
      | Some closed => incl ids (map Question.id (Quiz.questions closed))
      | None => True
      end
  | _ => True
  end.

(** The creations whose answer [handleSave] looks at. *)
Definition checked (r : Request) : bool :=
  match body r with
  | QuizBody _ _ _ _ _ _ _ | QuestionBody _ _ _ _ => true
  | _ => false
  end.

(** The backend answers every creation, and answers the creation of a quiz
    or of a question with an ok status and a body that can be read.  What
    it answers to the other creations and to a delete is left open. *)
Definition answers_creates (srv : Server) : Prop :=
  forall history r,
    method r = POST ->
    exists resp,
      srv history r = Resolved resp
      /\ (checked r = true -> ok resp = true /\ json resp <> None).

(** What an [Error] that [handleSave] creates itself says, and the
    creation it is about: that of the quiz, or that of a question of the
    quiz, which it names by the identifier the editor gave it. *)
Definition reports (token user : string) (quiz : Quiz.t) (message : string)
    (req : Request) : Prop :=
  (message = "Failed to save quiz" /\ req = quizRequest token user quiz)
  \/ exists question quizId,
       In question (Quiz.questions quiz)
       /\ message = ("Failed to save question: " ++ Question.id question)%string
       /\ req = questionRequest token quizId question.

(** The number of requests of a save of these questions that goes
    through, the delete aside: one for the quiz and, for each question, one
    for the question, one for each image and one for each choice. *)
Definition creates_count (questions : list Question.t) : nat :=
  1 + list_sum
        (map (fun q =>
                1 + length (match Question.imageUrls q with
                            | Some urls => urls | None => [] end)
                  + length (Question.choices q))
             questions).

End QuizEditor.

(* ================================================================= *)
(** ** A small quiz and three backends, to run the handlers on *)

Module Demo.
Import QuizEditor.

Definition piece1 : Choice.t := Choice.mk "c1" "boil water" true None None None 1.
Definition piece2 : Choice.t := Choice.mk "c2" "add pasta" true None None None 0.

Definition question1 : Question.t :=
  Question.mk "q1" "puzzle" "Order the steps" None
              (Some ["http://img.example/pasta.png"]) [piece1; piece2].

Definition quiz1 : Quiz.t :=
  Quiz.mk "local-1" "Cooking" "en" "puzzle" published (Some 0%Z) None
          [question1] None.

(** The editor after an earlier save: ["quiz-6"] is in local storage. *)
Definition world1 : World :=
  mkWorld quiz1 (Some "q1") false None (Some "quiz-6") [] [] [] [].

Definition created : Response :=
  mkResponse true (Some (mkJson "quiz-7" "question-9")).

Definition server_error : Response := mkResponse false None.

(** A backend that accepts every request. *)
Definition accepting : Server := fun _ _ => Resolved created.

(** A backend that answers the creation of a choice with an error status
    and accepts the rest. *)
Definition refusing_choices : Server :=
  fun _ r =>
    if String.eqb (url r) (api ++ "/choices")%string
    then Resolved server_error else Resolved created.

(** A backend that answers the creation of an image with an error status
    and accepts the rest. *)
Definition refusing_images : Server :=
  fun _ r =>
    if String.eqb (url r) (api ++ "/question-images")%string
    then Resolved server_error else Resolved created.

(** A backend that accepts all but the creation of a choice, for which it
    cannot be reached. *)
Definition unreachable_for_choices : Server :=
  fun _ r =>
    if String.eqb (url r) (api ++ "/choices")%string
    then Rejected else Resolved created.

(** A backend that cannot be reached for the delete and answers the
    creation of a question with an error status. *)
Definition refusing_questions : Server :=
  fun _ r =>
    match method r with
    | DELETE => Rejected
    | POST =>
        if String.eqb (url r) (api ++ "/questions")%string
        then Resolved server_error else Resolved created
    end.

Definition env_with (srv : Server) : Env :=
  mkEnv (Some "user-1") (Some "secret") srv 1700000000000%Z.

(** Nobody is signed in. *)
Definition signed_out : Env := mkEnv None None accepting 1700000000000%Z.

(** Three pieces and a drag that started on the first. *)
Definition piece3 : Choice.t := Choice.mk "c3" "drain" true None None None 2.

Definition dragging : PuzzleEditor.Props :=
  PuzzleEditor.mkProps [piece1; piece2; piece3] (Some 0).

(** Two pieces and a drag index left over from a longer list. *)
Definition stale_drag : PuzzleEditor.Props :=
  PuzzleEditor.mkProps [piece1; piece2] (Some 5).

(** [Math.random()] returns the same number every time. *)
Definition steady : nat -> Q := fun _ => 1 # 2.

(** A backend that answers the creations [handleSave] checks with
    success and the others with an error status. *)
Definition lenient : Server :=
  fun _ r => if checked r then Resolved created else Resolved server_error.

(** A backend that cannot be reached. *)
Definition unreachable : Server := fun _ _ => Rejected.

(** The shell on the demo quiz, with the unsaved-changes modal open. *)
Definition shell1 : Shell := mkShell world1 false true [].

(** The demo quiz without its question, in an editor that never saved. *)
Definition empty_quiz : Quiz.t :=
  Quiz.mk "local-2" "Blank" "en" "puzzle" draft None None [] None.

Definition world0 : World :=
  mkWorld empty_quiz None false None None [] [] [] [].

(** A new version of a question that the demo quiz does not have. *)
Definition stranger : Question.t :=
  Question.mk "q7" "puzzle" "Not in the quiz" None None [].

(** A second question is added to the demo quiz. *)
Definition add_second : Op := AddQuestion "q2".

Definition session1 : Session := mkSession world1 [].

End Demo.

(* ================================================================= *)
(** ** Properties of the array primitives *)

Section ArrayFacts.
Context {A : Type}.

Lemma mapi_from_length {B : Type} (f : A -> nat -> B) (l : list A) :
  forall i, length (mapi_from i f l) = length l.
Proof.
  induction l as [|x l IH]; intros i; simpl; [reflexivity|].
  now rewrite IH.
Qed.

Lemma mapi_from_fst {K : Type} (key : nat -> K) (l : list A) :
  forall i, map fst (mapi_from i (fun value j => (value, key j)) l) = l.
Proof.
  induction l as [|x l IH]; intros i; simpl; [reflexivity|].
  now rewrite IH.
Qed.

Lemma sort_insert_perm (cmp : A -> A -> Q) (x : A) (l : list A) :
  Permutation (x :: l) (sort_insert cmp x l).
Proof.
  induction l as [|y l IH]; simpl.
  - apply Permutation_refl.
  - destruct (Qle_bool (cmp x y) 0).
    + apply Permutation_refl.
    + eapply perm_trans; [apply perm_swap|].
      now apply perm_skip.
Qed.

Lemma sort_by_perm (cmp : A -> A -> Q) (l : list A) :
  Permutation l (sort_by cmp l).
Proof.
  induction l as [|x l IH]; simpl.
  - apply perm_nil.
  - eapply perm_trans; [apply perm_skip, IH|].
    apply sort_insert_perm.
Qed.

(** Taking one element out of a list, when there is one at [i]. *)
Lemma splice_out_split (i : nat) (l : list A) (x : A) :
  nth_error l i = Some x ->
  l = firstn i l ++ x :: skipn (S i) l.
Proof.
  revert l; induction i as [|i IH]; intros [|y l] H; simpl in *;
    try discriminate.
  - now inversion H.
  - f_equal. now apply IH.
Qed.

Lemma splice_out_length (i : nat) (l : list A) :
  i < length l -> S (length (snd (splice_out i l))) = length l.
Proof.
  intros Hi. unfold splice_out; cbn [snd].
  rewrite length_app, length_firstn, length_skipn. lia.
Qed.

Lemma splice_in_perm (k : nat) (x : A) (l : list A) :
  Permutation (x :: l) (splice_in k x l).
Proof.
  unfold splice_in.
  rewrite <- (firstn_skipn k l) at 1.
  apply Permutation_middle.
Qed.

Lemma splice_in_nth (k : nat) (x : A) (l : list A) :
  k <= length l -> nth_error (splice_in k x l) k = Some x.
Proof.
  intros Hk. unfold splice_in.
  rewrite nth_error_app2; rewrite length_firstn, Nat.min_l by lia;
    [|lia].
  now rewrite Nat.sub_diag.
Qed.

Lemma splice_in_out (k : nat) (x : A) (l : list A) :
  k <= length l -> snd (splice_out k (splice_in k x l)) = l.
Proof.
  intros Hk. unfold splice_out, splice_in; cbn [snd].
  assert (Hlen : length (firstn k l) = k)
    by (rewrite length_firstn; lia).
  rewrite firstn_app, Hlen, Nat.sub_diag, firstn_O, app_nil_r.
  rewrite firstn_all2 by lia.
  rewrite skipn_app, Hlen.
  rewrite (skipn_all2 (n := S k)) by lia.
  replace (S k - k) with 1 by lia. simpl.
  apply firstn_skipn.
Qed.

(** Past the end [splice] appends. *)
Lemma splice_in_past_end (k : nat) (x : A) (l : list A) :
  length l <= k -> splice_in k x l = l ++ [x].
Proof.
  intros Hk. unfold splice_in.
  now rewrite firstn_all2, skipn_all2 by lia.
Qed.
End ArrayFacts.

(* ================================================================= *)
(** ** PuzzleEditor: the list of pieces *)

Section PuzzleEditorFacts.
Import PuzzleEditor.

Lemma move_perm {A : Type} (d k : nat) (l : list A) :
  Permutation l (move d k l).
Proof.
  unfold move. destruct (nth_error l d) as [x|] eqn:E.
  - eapply perm_trans; [|apply splice_in_perm].
    rewrite (splice_out_split d l x E) at 1.
    symmetry. apply Permutation_middle.
  - apply Permutation_refl.
Qed.

(** With a drag that started on a piece of the list, the array that
    [handleDrop] emits has no hole: it is [move] of the list. *)
Lemma handleDrop_valid (cs : list Choice.t) (d k : nat) :
  d < length cs ->
  handleDrop k (mkProps cs (Some d)) = Some (map Some (move d k cs)).
Proof.
  intros Hd. unfold handleDrop, move, splice_out, splice_in.
  cbn [choices draggedIndex snd].
  destruct (nth_error cs d) as [x|] eqn:E.
  - rewrite nth_error_map, E; cbn [option_map].
    rewrite (firstn_map _ d), (skipn_map _ (S d)), <- map_app.
    rewrite firstn_map, skipn_map.
    now rewrite (map_app Some), map_cons.
  - apply nth_error_None in E. lia.
Qed.

(** Past the end of the list the dragged slot is empty and [undefined]
    is inserted. *)
Lemma handleDrop_hole (cs : list Choice.t) (d k : nat) :
  length cs <= d ->
  handleDrop k (mkProps cs (Some d))
  = Some (splice_in k None (map Some cs)).
Proof.
  intros Hd. unfold handleDrop, splice_out.
  cbn [choices draggedIndex].
  assert (E : nth_error (map Some cs) d = None)
    by (apply nth_error_None; rewrite length_map; lia).
  rewrite E.
  rewrite firstn_all2, skipn_all2 by (rewrite length_map; lia).
  now rewrite app_nil_r.
Qed.

Lemma map_Some_inj {A : Type} (l l' : list A) :
  map Some l = map Some l' -> l = l'.
Proof.
  revert l'; induction l as [|x l IH]; intros [|y l'] H; simpl in *;
    try discriminate; [reflexivity|].
  inversion H; subst. f_equal. now apply IH.
Qed.

Lemma dense_perm (l l' : list Choice.t) :
  Permutation l l' -> dense l -> dense l'.
Proof.
  unfold dense. intros HP HD.
  rewrite <- (Permutation_length HP).
  eapply perm_trans; [|exact HD].
  symmetry. now apply Permutation_map.
Qed.

Lemma handleAddChoice_dense (uuid : string) (cs : list Choice.t) :
  dense cs -> dense (handleAddChoice uuid cs).
Proof.
  unfold dense, handleAddChoice. intros HD.
  rewrite map_app, length_app; simpl.
  rewrite Nat.add_1_r, seq_S, map_app; simpl.
  now apply Permutation_app_tail.
Qed.

Lemma reindex_order (l : list Choice.t) :
  forall i,
    map Choice.order
        (mapi_from i (fun c index => Choice.with_order (Z.of_nat index) c) l)
    = map Z.of_nat (seq i (length l)).
Proof.
  induction l as [|c l IH]; intros i; simpl; [reflexivity|].
  now rewrite IH.
Qed.

(** Deleting renumbers, whatever the order fields were. *)
Lemma handleDeleteChoice_dense (choiceId : string) (cs : list Choice.t) :
  dense (handleDeleteChoice choiceId cs).
Proof.
  unfold dense, handleDeleteChoice.
  now rewrite reindex_order, mapi_from_length.
Qed.

Lemma handleShuffle_perm (random : nat -> Q) (cs : list Choice.t) :
  Permutation cs (handleShuffle random cs).
Proof.
  unfold handleShuffle.
  rewrite <- (mapi_from_fst random cs 0) at 1.
  apply Permutation_map, sort_by_perm.
Qed.

Lemma handleTextChange_order (choiceId value : string) (cs : list Choice.t) :
  map Choice.order (handleTextChange choiceId value cs)
  = map Choice.order cs.
Proof.
  unfold handleTextChange. rewrite map_map.
  apply map_ext. intros c.
  now destruct (String.eqb (Choice.id c) choiceId).
Qed.

Lemma handleTextChange_dense (choiceId value : string) (cs : list Choice.t) :
  dense cs -> dense (handleTextChange choiceId value cs).
Proof.
  unfold dense. rewrite handleTextChange_order.
  unfold handleTextChange. now rewrite length_map.
Qed.

(** X31.  Starting from a list of choices whose order fields are exactly
    0, ..., n-1 and a drag (if any) that started on a piece of the list,
    every list that a mutation of the PuzzleEditor emits (add a piece,
    delete a piece, drop, shuffle, edit a text) is a list of choices whose
    order fields are exactly 0, ..., m-1 for its own length m. *)
Theorem mutate_keeps_order_dense (p : Props) (m : Mutation)
    (Hdense : dense (choices p)) (Hdrag : drag_valid p) :
  forall emitted, mutate m p = Some emitted ->
    exists l', emitted = map Some l' /\ dense l'.
Proof.
  intros emitted H. destruct m as [uuid|cid|k|random|cid v]; simpl in H.
  - inversion H. eexists; split; [reflexivity|].
    now apply handleAddChoice_dense.
  - inversion H. eexists; split; [reflexivity|].
    apply handleDeleteChoice_dense.
  - destruct p as [cs [d|]]; simpl in *; [|discriminate].
    rewrite handleDrop_valid in H by exact Hdrag. inversion H.
    eexists; split; [reflexivity|].
    eapply dense_perm; [apply move_perm|exact Hdense].
  - inversion H. eexists; split; [reflexivity|].
    eapply dense_perm; [apply handleShuffle_perm|exact Hdense].
  - inversion H. eexists; split; [reflexivity|].
    now apply handleTextChange_dense.
Qed.

(** C6.  Whatever numbers [Math.random()] returns, [handleShuffle] emits
    a permutation of the list it was given: the same choices, each as it
    was, as many times as it was there; in particular the length is the
    same. *)
Theorem handleShuffle_permutation (random : nat -> Q) (cs : list Choice.t) :
  Permutation cs (handleShuffle random cs)
  /\ length (handleShuffle random cs) = length cs.
Proof.
  split; [apply handleShuffle_perm|].
  symmetry. apply Permutation_length, handleShuffle_perm.
Qed.

(** C10.  With no drag in progress [handleDrop] does not call [onChange].
    With a drag that started on the piece at [d], a drop on the piece at
    [dropIndex] emits a list of the same choices in which the dragged
    choice stands at [dropIndex] and, that one taken out, the others
    stand as they stood in the input with the dragged one taken out. *)
Theorem handleDrop_moves (p : Props) (dropIndex : nat)
    (Hvalid : drop_valid dropIndex p) :
  match draggedIndex p with
  | None => handleDrop dropIndex p = None
  | Some d =>
      exists l',
        handleDrop dropIndex p = Some (map Some l')
        /\ length l' = length (choices p)
        /\ nth_error l' dropIndex = nth_error (choices p) d
        /\ snd (splice_out dropIndex l') = snd (splice_out d (choices p))
  end.
Proof.
  destruct p as [cs [d|]]; unfold drop_valid in Hvalid; simpl in *;
    [|reflexivity].
  destruct Hvalid as [Hd Hk].
  exists (move d dropIndex cs).
  split; [now apply handleDrop_valid|].
  split; [symmetry; apply Permutation_length, move_perm|].
  unfold move. destruct (nth_error cs d) as [x|] eqn:E.
  - assert (Hlen : dropIndex <= length (snd (splice_out d cs))).
    { apply Nat.lt_succ_r. now rewrite splice_out_length. }
    split.
    + now apply splice_in_nth.
    + now apply splice_in_out.
  - apply nth_error_None in E. lia.
Qed.

Lemma mutate_keeps_order_dense_witness :
  dense (choices Demo.dragging)
  /\ drag_valid Demo.dragging
  /\ forall emitted, mutate (Drop 2) Demo.dragging = Some emitted ->
       exists l', emitted = map Some l' /\ dense l'.
Proof.
  assert (Hdense : dense (choices Demo.dragging)) by apply perm_swap.
  assert (Hdrag : drag_valid Demo.dragging) by (vm_compute; lia).
  split; [exact Hdense|]. split; [exact Hdrag|].
  exact (mutate_keeps_order_dense Demo.dragging (Drop 2) Hdense Hdrag).
Defined.

(** C1.  A drop after a drag that started at index 5, on the list of the
    two pieces [c1] and [c2] whose order fields are 1 and 0: [handleDrop]
    reads [choices[5]], which is [undefined], removes nothing and inserts
    it, so what it emits has three elements, the first of which is not a
    choice.  The order fields of what is emitted are not 0, 1, 2. *)
Theorem stale_drop_breaks_dense_order :
  dense (choices Demo.stale_drag)
  /\ draggedIndex Demo.stale_drag = Some 5
  /\ mutate (Drop 0) Demo.stale_drag
     = Some [None; Some Demo.piece1; Some Demo.piece2]
  /\ ~ (exists l',
          [None; Some Demo.piece1; Some Demo.piece2] = map Some l'
          /\ dense l').
Proof.
  split; [apply perm_swap|]. split; [reflexivity|]. split; [reflexivity|].
  intros (l' & E & _). destruct l'; discriminate.
Qed.

Lemma handleDrop_moves_witness :
  drop_valid 2 Demo.dragging
  /\ exists l',
       handleDrop 2 Demo.dragging = Some (map Some l')
       /\ length l' = 3
       /\ nth_error l' 2 = Some Demo.piece1
       /\ snd (splice_out 2 l') = [Demo.piece2; Demo.piece3].
Proof.
  assert (Hvalid : drop_valid 2 Demo.dragging) by (vm_compute; lia).
  split; [exact Hvalid|].
  exact (handleDrop_moves Demo.dragging 2 Hvalid).
Defined.

End PuzzleEditorFacts.

(* ================================================================= *)
(** ** QuizEditor: the runs of the save pipeline *)

Section SaveFacts.
Import QuizEditor.
Variable env : Env.


Lemma after_requests_nil (w : World) :
  after_requests w [] (saveProgress w) = w.
Proof.
  destruct w; unfold after_requests; simpl. now rewrite app_nil_r.
Qed.

Lemma after_requests_app (w : World) rs sp rs' sp' :
  after_requests (after_requests w rs sp) rs' sp'
  = after_requests w (rs ++ rs') sp'.
Proof.
  unfold after_requests; simpl. now rewrite app_assoc.
Qed.

Lemma answered_in_turn_app (srv : Server) (rs rs' : list Request) :
  forall history,
    answered_in_turn srv history rs ->
    answered_in_turn srv (history ++ rs) rs' ->
    answered_in_turn srv history (rs ++ rs').
Proof.
  induction rs as [|r rs IH]; intros history H H'; cbn [app].
  - now rewrite app_nil_r in H'.
  - destruct H as [Hr Hrs]. split; [exact Hr|].
    apply IH; [exact Hrs|]. now rewrite <- app_assoc.
Qed.

(** The request of [rs] that comes after [pre] got a response. *)
Lemma answered_in_turn_nth (srv : Server) (pre post : list Request)
    (req : Request) :
  forall history,
    answered_in_turn srv history (pre ++ req :: post) ->
    exists resp, srv (history ++ pre) req = Resolved resp.
Proof.
  induction pre as [|r pre IH]; intros history H; cbn [app] in H.
  - rewrite app_nil_r. exact (proj1 H).
  - destruct H as [_ H]. apply IH in H. now rewrite <- app_assoc in H.
Qed.

Lemma run_from_ret {A : Type} (w : World) (a : A) (P : list Request -> Prop) :
  P [] -> run_from (server env) w (Val a, w) P.
Proof.
  intros HP. exists [], (saveProgress w).
  split; [symmetry; apply after_requests_nil|].
  split; [constructor|]. split; [exact HP|exact I].
Qed.

(** A request that is sent first, then a part that runs from there. *)
Lemma run_from_step {A : Type} (w : World) (r : Request)
    (sp : option SaveProgress) (res : Outcome A * World)
    (P Q : list Request -> Prop) :
  is_create r = true ->
  (exists resp, server env (requests w) r = Resolved resp) ->
  run_from (server env) (after_requests w [r] sp) res P ->
  (forall rs, P rs -> Q (r :: rs)) ->
  run_from (server env) w res Q.
Proof.
  intros Hr Hanswered (rs & sp' & Hw & Hall & Hres) HPQ.
  exists (r :: rs), sp'.
  split; [now rewrite Hw, after_requests_app|].
  split; [now constructor|].
  destruct (fst res).
  - destruct Hres as [HP Hrs]. split; [now apply HPQ|].
    split; [exact Hanswered|exact Hrs].
  - destruct Hres as (pre & req & -> & Hf).
    exists (r :: pre), req. split; [reflexivity|].
    simpl in Hf. now rewrite <- app_assoc in Hf.
Qed.

(** A request that is sent and does not go through. *)
Lemma run_from_fail {A : Type} (w : World) (r : Request)
    (sp : option SaveProgress) (e : Exn) (P : list Request -> Prop) :
  is_create r = true ->
  failed ((server env) (requests w) r) = true ->
  run_from (A := A) (server env) w (Throw e, after_requests w [r] sp) P.
Proof.
  intros Hr Hf. exists [r], sp.
  split; [reflexivity|]. split; [now repeat constructor|].
  exists [], r. simpl. now rewrite app_nil_r.
Qed.

(** Two parts in sequence. *)
Lemma run_from_seq {A B : Type} (w : World) (m : M A) (k : A -> M B)
    (P : list Request -> Prop) (Q : list Request -> list Request -> Prop)
    (R : list Request -> Prop) :
  run_from (server env) w (m w) P ->
  (forall a rs sp, m w = (Val a, after_requests w rs sp) -> P rs ->
     run_from (server env) (after_requests w rs sp) (k a (after_requests w rs sp)) (Q rs)) ->
  (forall rs rs', P rs -> Q rs rs' -> R (rs ++ rs')) ->
  run_from (server env) w (bind m k w) R.
Proof.
  intros (rs & sp & Hw & Hall & Hres) Hk HR.
  unfold bind. destruct (m w) as [[a|e] w1] eqn:E; simpl in *; subst w1.
  - destruct Hres as [HP Hrs].
    destruct (Hk a rs sp eq_refl HP) as (rs' & sp' & Hw' & Hall' & Hres').
    exists (rs ++ rs'), sp'.
    split; [now rewrite Hw', after_requests_app|].
    split; [now apply Forall_app|].
    destruct (fst (k a (after_requests w rs sp))).
    + destruct Hres' as [HQ Hrs']. split; [now apply HR|].
      now apply answered_in_turn_app.
    + destruct Hres' as (pre & req & -> & Hf).
      exists (rs ++ pre), req. split; [now rewrite app_assoc|].
      simpl in Hf. now rewrite <- app_assoc in Hf.
  - exists rs, sp. auto.
Qed.

Lemma saveImages_run (questionId : string) (imageUrls : list string) :
  forall j total w,
    run_from (server env) w (saveImages env questionId imageUrls j total w)
      (fun rs => rs = map (imageRequest (token env) questionId) imageUrls).
Proof.
  induction imageUrls as [|u rest IH]; intros j total w; simpl.
  - now apply run_from_ret.
  - unfold bind, progress, modify, fetch; simpl.
    destruct ((server env) (requests w) (imageRequest (token env) questionId u)) eqn:E.
    + apply (run_from_fail w _ (Some _)); [reflexivity|].
      now rewrite E.
    + eapply (run_from_step w (imageRequest (token env) questionId u)
                (Some _)); [reflexivity|now exists r|apply IH|].
      intros rs ->. reflexivity.
Qed.

Lemma saveChoices_run (questionId : string) (choices : list Choice.t) :
  forall k total w,
    run_from (server env) w (saveChoices env questionId choices k total w)
      (fun rs => rs = map (choiceRequest (token env) questionId) choices).
Proof.
  induction choices as [|c rest IH]; intros k total w; simpl.
  - now apply run_from_ret.
  - unfold bind, progress, modify, fetch; simpl.
    destruct ((server env) (requests w) (choiceRequest (token env) questionId c)) eqn:E.
    + apply (run_from_fail w _ (Some _)); [reflexivity|].
      now rewrite E.
    + eapply (run_from_step w (choiceRequest (token env) questionId c)
                (Some _)); [reflexivity|now exists r|apply IH|].
      intros rs ->. reflexivity.
Qed.

(** A progress that is shown first changes nothing to how a part runs. *)
Lemma run_from_progress {A : Type} (w : World) (sp : option SaveProgress)
    (res : Outcome A * World) (P : list Request -> Prop) :
  run_from (server env) (setSaveProgress sp w) res P ->
  run_from (server env) w res P.
Proof.
  intros (rs & sp' & Hw & Hall & Hres). exists rs, sp'.
  split; [exact Hw|]. split; [exact Hall|exact Hres].
Qed.

Lemma saveImagesOf_run (questionId : string) (question : Question.t)
    (w : World) :
  run_from (server env) w (saveImagesOf env questionId question w)
    (fun rs => rs = map (imageRequest (token env) questionId)
                        (match Question.imageUrls question with
                         | Some urls => urls | None => [] end)).
Proof.
  unfold saveImagesOf.
  destruct (Question.imageUrls question) as [[|u urls]|].
  - now apply run_from_ret.
  - unfold bind, progress, modify.
    apply (run_from_progress w
             (Some (mkProgress step_images 0 (length (u :: urls))))).
    apply (saveImages_run questionId (u :: urls)).
  - now apply run_from_ret.
Qed.

Lemma saveQuestions_run (quizId : string) (questions : list Question.t) :
  forall i total w,
    run_from (server env) w (saveQuestions env quizId questions i total w)
      (fun rs =>
         exists questionIds,
           length questionIds = length questions
           /\ rs = concat (map (question_plan (token env) quizId)
                               (combine questions questionIds))
           /\ assigned_in_turn (server env) (requests w) (token env) quizId
                               questions questionIds).
Proof.
  induction questions as [|q rest IH]; intros i total w.
  - apply run_from_ret. exists []. now repeat split.
  - cbn [saveQuestions]. unfold bind at 1 2. unfold progress at 1, modify at 1, fetch.
    cbn [requests setSaveProgress].
    set (qreq := questionRequest (token env) quizId q).
    destruct (server env (requests w) qreq) as [|resp] eqn:E.
    { apply (run_from_fail w qreq (Some _)); [reflexivity|]. now rewrite E. }
    unfold bind at 1.
    destruct (ok resp) eqn:Eok; cbn [negb].
    2:{ apply (run_from_fail w qreq (Some _)); [reflexivity|].
        rewrite E; simpl. now rewrite Eok. }
    cbn [ret]. unfold bind at 1, parse.
    destruct (json resp) as [j|] eqn:Ej.
    2:{ apply (run_from_fail w qreq (Some _)); [reflexivity|].
        rewrite E; simpl. rewrite Ej. apply orb_true_r. }
    cbn [ret].
    set (imgs := map (imageRequest (token env) (question_id j))
                     (match Question.imageUrls q with
                      | Some urls => urls | None => [] end)).
    set (chs := map (choiceRequest (token env) (question_id j))
                    (Question.choices q)).
    eapply (run_from_step w qreq (Some _)) with
      (P := fun rs => exists questionIds,
                length questionIds = length rest
                /\ rs = imgs ++ chs
                          ++ concat (map (question_plan (token env) quizId)
                                         (combine rest questionIds))
                /\ assigned_in_turn (server env)
                     (requests w ++ qreq :: imgs ++ chs) (token env) quizId
                     rest questionIds);
      [reflexivity|now exists resp| |].
    + eapply run_from_seq with
        (P := fun rs => rs = imgs)
        (Q := fun rs1 rs2 => exists questionIds,
                length questionIds = length rest
                /\ rs2 = chs ++ concat (map (question_plan (token env) quizId)
                                            (combine rest questionIds))
                /\ assigned_in_turn (server env)
                     (requests w ++ qreq :: rs1 ++ chs) (token env) quizId
                     rest questionIds).
      * apply saveImagesOf_run.
      * intros [] rs1 sp1 _ ->.
        unfold bind at 1, progress at 1, modify at 1.
        eapply run_from_progress.
        eapply run_from_seq with
          (P := fun rs => rs = chs)
          (Q := fun rs2 rs3 => exists questionIds,
                  length questionIds = length rest
                  /\ rs3 = concat (map (question_plan (token env) quizId)
                                       (combine rest questionIds))
                  /\ assigned_in_turn (server env)
                       (requests w ++ qreq :: imgs ++ rs2) (token env) quizId
                       rest questionIds).
        -- apply saveChoices_run.
        -- intros [] rs2 sp2 _ ->.
           match goal with
           | |- run_from _ ?w' _ _ =>
               assert (Hreq : requests w' = requests w ++ qreq :: imgs ++ chs)
           end.
           { cbn [requests after_requests setSaveProgress sent].
             now rewrite <- !app_assoc. }
           rewrite <- Hreq. apply IH.
        -- intros rs2 rs3 -> (ids & Hlen & -> & Hass).
           exists ids. auto.
      * intros rs1 rs2 -> (ids & Hlen & -> & Hass).
        exists ids. auto.
    + intros rs (ids & Hlen & -> & Hass).
      exists (question_id j :: ids).
      split; [simpl; now rewrite Hlen|].
      split.
      * cbn [combine map concat question_plan].
        fold qreq. fold imgs. fold chs.
        now rewrite <- app_comm_cons, <- app_assoc.
      * cbn [assigned_in_turn]. split.
        -- exists resp, j. auto.
        -- cbn [question_plan]. fold qreq. fold imgs. fold chs. exact Hass.
Qed.

(** The setters on a world that is written out. *)
Lemma set_progress_mk a b c d e f g h i sp :
  setSaveProgress sp (mkWorld a b c d e f g h i) = mkWorld a b c sp e f g h i.
Proof. reflexivity. Qed.

Lemma set_saving_mk a b c d e f g h i v :
  setIsSaving v (mkWorld a b c d e f g h i) = mkWorld a b v d e f g h i.
Proof. reflexivity. Qed.

Lemma set_item_mk a b c d e f g h i v :
  setItem_currentQuizId v (mkWorld a b c d e f g h i)
  = mkWorld a b c d (Some v) f g h i.
Proof. reflexivity. Qed.

Lemma set_quiz_mk a b c d e f g h i k :
  setQuiz k (mkWorld a b c d e f g h i) = mkWorld (k a) b c d e f g h i.
Proof. reflexivity. Qed.

Lemma sent_mk a b c d e f g h i r :
  sent r (mkWorld a b c d e f g h i) = mkWorld a b c d e (f ++ [r]) g h i.
Proof. reflexivity. Qed.

Lemma logged_mk a b c d e f g h i l :
  logged l (mkWorld a b c d e f g h i) = mkWorld a b c d e f (g ++ [l]) h i.
Proof. reflexivity. Qed.

Lemma toasted_mk a b c d e f g h i t :
  toasted t (mkWorld a b c d e f g h i) = mkWorld a b c d e f g (h ++ [t]) i.
Proof. reflexivity. Qed.

Lemma onSave_mk a b c d e f g h i q :
  onSave q (mkWorld a b c d e f g h i) = mkWorld a b c d e f g h (i ++ [q]).
Proof. reflexivity. Qed.

Lemma after_requests_mk a b c d e f g h i rs sp :
  after_requests (mkWorld a b c d e f g h i) rs sp
  = mkWorld a b c sp e (f ++ rs) g h i.
Proof. reflexivity. Qed.

Create Rewrite HintDb world.
#[local] Hint Rewrite set_progress_mk set_saving_mk set_item_mk set_quiz_mk sent_mk
  logged_mk toasted_mk onSave_mk after_requests_mk : world.

(** A world built by setters on a world that is written out, written out
    in turn, innermost setter first. *)
Ltac world_cbn :=
  repeat (progress (autorewrite with world in *;
                    cbn [quiz selectedQuestionId isSaving saveProgress
                         currentQuizId requests console toasts saved
                         fst snd] in * )).

Lemma deleteExisting_run (existingQuizId : option string) (w : World) :
  deleteExisting env existingQuizId w
  = (Val tt,
     mkWorld (quiz w) (selectedQuestionId w) (isSaving w) (saveProgress w)
       (currentQuizId w)
       (requests w ++ delete_plan (token env) existingQuizId)
       (console w ++ delete_step_log (server env) (token env) (requests w)
                       existingQuizId)
       (toasts w) (saved w)).
Proof.
  unfold deleteExisting, delete_plan, delete_step_log.
  destruct (truthy existingQuizId).
  - unfold try_catch, bind, fetch.
    destruct (server env (requests w) _) as [|resp]; simpl.
    + reflexivity.
    + destruct (ok resp); simpl; [|reflexivity].
      unfold ret, sent. now rewrite app_nil_r.
  - unfold ret. destruct w; simpl. now rewrite !app_nil_r.
Qed.

(** How the [try] block of [handleSave] ends. *)
Lemma savePipeline_run (q : Quiz.t) (w : World) :
  let dp := delete_plan (token env) (currentQuizId w) in
  let dl := delete_step_log (server env) (token env) (requests w)
                            (currentQuizId w) in
  let qr := quizRequest (token env) (user env) q in
  match savePipeline env q w with
  | (Val r, w') =>
      exists quizId questionIds sp,
        r = Some (updatedQuiz env q quizId)
        /\ assigns (server env) (requests w ++ dp) qr quiz_id quizId
        /\ length questionIds = length (Quiz.questions q)
        /\ (assigned_in_turn (server env) (requests w ++ dp ++ [qr])
              (token env) quizId (Quiz.questions q) questionIds
            /\ answered_in_turn (server env) (requests w ++ dp)
                 (qr :: concat (map (question_plan (token env) quizId)
                                    (combine (Quiz.questions q)
                                             questionIds))))
        /\ w' = mkWorld (updatedQuiz env q quizId) (selectedQuestionId w)
                  (isSaving w) sp (Some quizId)
                  (requests w ++ save_plan (token env) (user env)
                                  (currentQuizId w) q quizId questionIds)
                  (console w ++ dl) (toasts w ++ [success_toast])
                  (saved w ++ [updatedQuiz env q quizId])
  | (Throw e, w') =>
      exists pre req sp cur,
        Forall (fun r => is_create r = true) (pre ++ [req])
        /\ failed (server env (requests w ++ dp ++ pre) req) = true
        /\ (exists post, pre ++ [req] = qr :: post)
        /\ (cur = currentQuizId w
            \/ exists quizId,
                 assigns (server env) (requests w ++ dp) qr quiz_id quizId
                 /\ cur = Some quizId)
        /\ w' = mkWorld (quiz w) (selectedQuestionId w) (isSaving w) sp cur
                  (requests w ++ dp ++ pre ++ [req])
                  (console w ++ dl) (toasts w) (saved w)
  end.
Proof.
  intros dp dl qr.
  destruct w as [q0 sel sav prog cur reqs con tts svd].
  cbn [quiz selectedQuestionId isSaving saveProgress currentQuizId requests
       console toasts saved] in *.
  unfold savePipeline.
  unfold bind at 1 2. unfold progress at 1, modify at 1.
  rewrite deleteExisting_run. world_cbn. fold dp. fold dl.
  unfold bind at 1 2. unfold progress at 1, modify at 1, fetch.
  world_cbn. fold qr.
  destruct (server env (reqs ++ dp) qr) as [|resp] eqn:E.
  { exists [], qr, (Some (mkProgress step_quiz 1 1)), cur.
    split; [now repeat constructor|].
    split; [rewrite app_nil_r, E; reflexivity|].
    split; [now exists []|]. split; [now left|].
    cbn [app]. now rewrite <- app_assoc. }
  unfold bind at 1.
  destruct (ok resp) eqn:Eok; cbn [negb].
  2:{ exists [], qr, (Some (mkProgress step_quiz 1 1)), cur.
      split; [now repeat constructor|].
      split; [rewrite app_nil_r, E; simpl; now rewrite Eok|].
      split; [now exists []|]. split; [now left|].
      cbn [app throw]. now rewrite <- app_assoc. }
  cbn [ret]. unfold bind at 1, parse.
  destruct (json resp) as [j|] eqn:Ej.
  2:{ exists [], qr, (Some (mkProgress step_quiz 1 1)), cur.
      split; [now repeat constructor|].
      split; [rewrite app_nil_r, E; simpl; rewrite Ej; apply orb_true_r|].
      split; [now exists []|]. split; [now left|].
      cbn [app throw]. now rewrite <- app_assoc. }
  cbn [ret].
  assert (Hassign : assigns (server env) (reqs ++ dp) qr quiz_id (quiz_id j))
    by (exists resp, j; auto).
  unfold bind at 1 2. unfold modify at 1, progress at 1, modify at 1.
  world_cbn.
  unfold bind at 1.
  match goal with
  | |- context [saveQuestions env ?a ?b ?c ?d ?w2] =>
      destruct (saveQuestions_run a b c d w2) as (rs & sp & Hw & Hall & Hres);
      destruct (saveQuestions env a b c d w2) as [[[]|e] w3]
  end; world_cbn; subst w3.
  - destruct Hres as [(ids & Hlen & -> & Hass) Hanswered].
    exists (quiz_id j), ids, sp.
    split; [reflexivity|]. split; [exact Hassign|]. split; [exact Hlen|].
    split.
    + rewrite <- app_assoc in Hass, Hanswered.
      split; [exact Hass|]. split; [now exists resp|].
      now rewrite <- app_assoc.
    + unfold bind, modify, ret, save_plan. world_cbn.
      fold dp. fold qr.
      now rewrite <- !app_assoc.
  - destruct Hres as (pre & req & -> & Hf).
    exists (qr :: pre), req, sp, (Some (quiz_id j)).
    split; [constructor; [reflexivity|exact Hall]|].
    split.
    + now rewrite <- !app_assoc in Hf.
    + split; [now exists (pre ++ [req])|].
      split; [right; now exists (quiz_id j)|].
      now rewrite <- !app_assoc.
Qed.

(** How [handleSave] ends once the guard on the credentials is passed. *)
Lemma handleSave_run (w : World) :
  truthy (userId env) = true -> truthy (accessToken env) = true ->
  let dp := delete_plan (token env) (currentQuizId w) in
  let dl := delete_step_log (server env) (token env) (requests w)
                            (currentQuizId w) in
  let qr := quizRequest (token env) (user env) (quiz w) in
  match handleSave env w with
  | (Val r, w') =>
      exists quizId questionIds,
        r = Some (updatedQuiz env (quiz w) quizId)
        /\ assigns (server env) (requests w ++ dp) qr quiz_id quizId
        /\ length questionIds = length (Quiz.questions (quiz w))
        /\ (assigned_in_turn (server env) (requests w ++ dp ++ [qr])
              (token env) quizId (Quiz.questions (quiz w)) questionIds
            /\ answered_in_turn (server env) (requests w ++ dp)
                 (qr :: concat (map (question_plan (token env) quizId)
                                    (combine (Quiz.questions (quiz w))
                                             questionIds))))
        /\ w' = mkWorld (updatedQuiz env (quiz w) quizId)
                  (selectedQuestionId w) false None (Some quizId)
                  (requests w ++ save_plan (token env) (user env)
                                  (currentQuizId w) (quiz w) quizId questionIds)
                  (console w ++ dl) (toasts w ++ [success_toast])
                  (saved w ++ [updatedQuiz env (quiz w) quizId])
  | (Throw e, w') =>
      exists pre req cur,
        Forall (fun r => is_create r = true) (pre ++ [req])
        /\ failed (server env (requests w ++ dp ++ pre) req) = true
        /\ (exists post, pre ++ [req] = qr :: post)
        /\ (cur = currentQuizId w
            \/ exists quizId,
                 assigns (server env) (requests w ++ dp) qr quiz_id quizId
                 /\ cur = Some quizId)
        /\ w' = mkWorld (quiz w) (selectedQuestionId w) false None cur
                  (requests w ++ dp ++ pre ++ [req])
                  (console w ++ dl
                     ++ [log_error "Error saving quiz:" (Some e)])
                  (toasts w ++ [error_toast]) (saved w)
  end.
Proof.
  intros Hu Ht dp dl qr. unfold handleSave. rewrite Hu, Ht; cbn [negb orb].
  unfold bind at 1, modify at 1, try_finally, try_catch.
  pose proof (savePipeline_run (quiz w) (setIsSaving true w)) as H.
  cbn zeta in H. subst dp dl qr.
  destruct w as [q0 sel sav prog cur reqs con tts svd].
  world_cbn.
  destruct (savePipeline env q0 _) as [[r|e] w1].
  - destruct H as (quizId & ids & sp & -> & Hq & Hlen & Hass & ->).
    exists quizId, ids. world_cbn. auto.
  - destruct H as (pre & req & sp & cur' & Hall & Hf & Hpost & Hcur & ->).
    exists pre, req, cur'.
    repeat (split; [assumption|]).
    unfold bind, modify, throw. world_cbn.
    now rewrite <- app_assoc.
Qed.

(** The guard: without credentials nothing is done but a line on the
    console. *)
Lemma handleSave_guard (w : World) :
  truthy (userId env) = false \/ truthy (accessToken env) = false ->
  handleSave env w
  = (Val None, logged (log_error "User not authenticated" None) w).
Proof.
  intros H. unfold handleSave.
  assert (E : negb (truthy (userId env)) || negb (truthy (accessToken env))
              = true).
  { destruct H as [-> | ->]; [reflexivity|apply orb_true_r]. }
  now rewrite E.
Qed.

(** A run that returns a quiz or throws went past the guard. *)
Lemma handleSave_past_guard (w : World) :
  (forall w', handleSave env w <> (Val None, w')) ->
  truthy (userId env) = true /\ truthy (accessToken env) = true.
Proof.
  intros H.
  destruct (truthy (userId env)) eqn:Hu;
    [destruct (truthy (accessToken env)) eqn:Ht; [auto|]|];
    exfalso; eapply H; apply handleSave_guard; auto.
Qed.

(** Saving never touches the questions held in memory. *)
Lemma handleSave_questions (w : World) :
  Quiz.questions (quiz (snd (handleSave env w))) = Quiz.questions (quiz w).
Proof.
  destruct (truthy (userId env)) eqn:Hu;
    [destruct (truthy (accessToken env)) eqn:Ht|];
    try (rewrite handleSave_guard by auto; reflexivity).
  pose proof (handleSave_run w Hu Ht) as H. cbn zeta in H.
  destruct (handleSave env w) as [[r|e] w'].
  - destruct H as (quizId & ids & _ & _ & _ & _ & ->). reflexivity.
  - destruct H as (pre & req & cur & _ & _ & _ & _ & ->). reflexivity.
Qed.

(* ----------------------------------------------------------------- *)
(** *** What a save does *)

(** When the creation of the quiz does not go through, the save stops
    there: nothing is sent after it and the error toast is shown. *)
Lemma quiz_create_failure_aborts (w : World) :
  truthy (userId env) = true -> truthy (accessToken env) = true ->
  let dp := delete_plan (token env) (currentQuizId w) in
  let qr := quizRequest (token env) (user env) (quiz w) in
  failed (server env (requests w ++ dp) qr) = true ->
  exists e,
    fst (handleSave env w) = Throw e
    /\ requests (snd (handleSave env w)) = requests w ++ dp ++ [qr]
    /\ toasts (snd (handleSave env w)) = toasts w ++ [error_toast].
Proof.
  intros Hu Ht dp qr Hf.
  assert (H : exists e w',
            handleSave env w = (Throw e, w')
            /\ requests w' = requests w ++ dp ++ [qr]
            /\ toasts w' = toasts w ++ [error_toast]).
  { unfold handleSave. rewrite Hu, Ht; cbn [negb orb].
    unfold bind at 1, modify at 1, try_finally, try_catch, savePipeline.
    unfold bind at 1 2. unfold progress at 1, modify at 1.
    rewrite deleteExisting_run. subst dp qr.
    destruct w as [q0 sel sav prog cur reqs con tts svd].
    world_cbn.
    unfold bind at 1 2. unfold progress at 1, modify at 1, fetch.
    world_cbn.
    unfold bind, parse.
    destruct (server env _ _) as [|resp];
      [|cbn [failed] in Hf;
        destruct (ok resp); [destruct (json resp); [discriminate|]|]];
      cbn [negb]; unfold modify, throw; world_cbn;
      eexists; eexists; (split; [reflexivity|]); world_cbn;
      now rewrite <- app_assoc. }
  destruct H as (e & w' & -> & Hreq & Htoast). exists e. auto.
Qed.

(** The creations of a save are all POSTs. *)
Lemma creates_are_posts (token user quizId : string) (q : Quiz.t)
    (questionIds : list string) :
  Forall (fun r => method r = POST)
         (quizRequest token user q
            :: concat (map (question_plan token quizId)
                           (combine (Quiz.questions q) questionIds))).
Proof.
  constructor; [reflexivity|].
  apply Forall_concat, Forall_map, Forall_forall.
  intros [question questionId] _. unfold question_plan.
  constructor; [reflexivity|].
  apply Forall_app; split; apply Forall_map, Forall_forall;
    intros x _; reflexivity.
Qed.

(** C3.  A run of [handleSave] that returns the saved quiz has sent, after
    what was sent before and in this order: the delete of the quiz named in
    local storage if there is one, the creation of the quiz, then for each
    question in the order of the list the creation of the question, of each
    of its images in order and of each of its choices in order.  Each
    request carries the identifier the backend assigned in its answer to an
    earlier one: the quiz's to the questions, the question's to its images
    and choices; none is sent before that answer is in.  Every creation of
    the sequence, those of the images and of the choices too, was awaited:
    it got a response from the backend, which had by then received the
    requests before it and no other; and the answer to the delete is on
    the console. *)
Theorem handleSave_request_sequence (w w' : World) (r : Quiz.t)
    (Hrun : handleSave env w = (Val (Some r), w')) :
  exists quizId questionIds,
    length questionIds = length (Quiz.questions (quiz w))
    /\ requests w'
       = requests w ++ save_plan (token env) (user env) (currentQuizId w)
                                (quiz w) quizId questionIds
    /\ assigns (server env)
         (requests w ++ delete_plan (token env) (currentQuizId w))
         (quizRequest (token env) (user env) (quiz w)) quiz_id quizId
    /\ assigned_in_turn (server env)
         (requests w ++ delete_plan (token env) (currentQuizId w)
            ++ [quizRequest (token env) (user env) (quiz w)])
         (token env) quizId (Quiz.questions (quiz w)) questionIds
    /\ (forall pre req post,
          save_plan (token env) (user env) (currentQuizId w) (quiz w)
                    quizId questionIds
          = pre ++ req :: post ->
          method req = POST ->
          exists resp, server env (requests w ++ pre) req = Resolved resp)
    /\ console w'
       = console w ++ delete_step_log (server env) (token env) (requests w)
                                      (currentQuizId w).
Proof.
  destruct (handleSave_past_guard w) as [Hu Ht].
  { intros w0 E. rewrite E in Hrun. discriminate. }
  pose proof (handleSave_run w Hu Ht) as H. cbn zeta in H.
  rewrite Hrun in H.
  destruct H as (quizId & ids & _ & Hq & Hlen & [Hass Hanswered] & ->).
  exists quizId, ids. cbn [requests console].
  repeat (split; [assumption || reflexivity|]).
  split; [|reflexivity].
  intros pre req post Hplan Hpost.
  unfold save_plan, delete_plan in Hplan, Hanswered.
  destruct (truthy (currentQuizId w)).
  - destruct pre as [|del pre]; cbn [app] in Hplan.
    + injection Hplan as <- _. discriminate.
    + injection Hplan as <- Hplan. rewrite Hplan in Hanswered.
      apply answered_in_turn_nth in Hanswered.
      now rewrite <- app_assoc in Hanswered.
  - cbn [app] in Hplan. rewrite Hplan in Hanswered.
    apply answered_in_turn_nth in Hanswered.
    now rewrite app_nil_r in Hanswered.
Qed.

(** C4.  With credentials and the identifier of a saved quiz in local
    storage, [handleSave] first sends the delete of that quiz and next the
    creation of the new quiz, whatever the backend answers to the delete:
    an answer that is not ok leaves a warning on the console, no answer an
    error line, and neither is thrown. *)
Theorem handleSave_delete_best_effort (w : World) (existingQuizId : string)
    (Hu : truthy (userId env) = true) (Ht : truthy (accessToken env) = true)
    (Hsaved : currentQuizId w = Some existingQuizId)
    (Hid : existingQuizId <> "") :
  let del := deleteRequest (token env) existingQuizId in
  exists rest logs,
    requests (snd (handleSave env w))
    = requests w ++ del :: quizRequest (token env) (user env) (quiz w) :: rest
    /\ console (snd (handleSave env w))
       = console w ++ delete_log (server env (requests w) del) ++ logs
    /\ (forall e, fst (handleSave env w) = Throw e ->
          exists pre req,
            requests (snd (handleSave env w)) = requests w ++ del :: pre ++ [req]
            /\ is_create req = true
            /\ failed (server env (requests w ++ del :: pre) req) = true).
Proof.
  intros del.
  assert (Htruthy : truthy (Some existingQuizId) = true).
  { simpl. apply negb_true_iff, String.eqb_neq, Hid. }
  pose proof (handleSave_run w Hu Ht) as H. cbn zeta in H.
  rewrite Hsaved in H.
  unfold delete_plan, delete_step_log in H.
  rewrite Htruthy in H. cbn [or_empty] in H. fold del in H.
  destruct (handleSave env w) as [[r|e] w1].
  - destruct H as (quizId & ids & _ & _ & _ & _ & ->).
    unfold save_plan, delete_plan. rewrite Htruthy.
    cbn [or_empty app requests console fst snd]. fold del.
    eexists. exists []. split; [reflexivity|]. split; [now rewrite app_nil_r|].
    discriminate.
  - destruct H as (pre & req & cur & Hall & Hf & (post & Hpost) & _ & ->).
    cbn [requests console fst snd].
    exists post, [log_error "Error saving quiz:" (Some e)].
    split; [now rewrite Hpost|]. split; [reflexivity|].
    intros e' _. exists pre, req.
    split; [reflexivity|]. split; [|exact Hf].
    apply Forall_app in Hall. destruct Hall as [_ Hreq].
    now inversion Hreq.
Qed.

(** C5.  Whatever way a run of [handleSave] ends, what it sends comes
    after what was sent before, which stays, and is at most the delete of
    the quiz that local storage named when the run started, then creations
    only: no delete follows a creation, whether the answer to that
    creation was looked at or not.  When the run throws, the last
    creation sent is the one that did not go through and nothing is sent
    after it; what was created stays, and where the quiz itself was created
    local storage names it.  The error toast is shown. *)
Theorem handleSave_no_rollback (w : World) :
  let dp := delete_plan (token env) (currentQuizId w) in
  let run := handleSave env w in
  exists dels posts,
    requests (snd run) = requests w ++ dels ++ posts
    /\ (dels = [] \/ dels = dp)
    /\ Forall (fun r => method r = POST) posts
    /\ (forall e, fst run = Throw e ->
          exists pre req,
            dels = dp
            /\ posts = pre ++ [req]
            /\ failed (server env (requests w ++ dp ++ pre) req) = true
            /\ toasts (snd run) = toasts w ++ [error_toast]
            /\ (currentQuizId (snd run) = currentQuizId w
                \/ exists quizId,
                     assigns (server env) (requests w ++ dp)
                             (quizRequest (token env) (user env) (quiz w))
                             quiz_id quizId
                     /\ currentQuizId (snd run) = Some quizId)).
Proof.
  intros dp run. subst run.
  destruct (truthy (userId env)) eqn:Hu;
    [destruct (truthy (accessToken env)) eqn:Ht|].
  2,3: rewrite handleSave_guard by auto; exists [], [];
       cbn [fst snd logged requests app]; rewrite app_nil_r;
       (split; [reflexivity|]); (split; [now left|]);
       (split; [constructor|discriminate]).
  pose proof (handleSave_run w Hu Ht) as H. cbn zeta in H. fold dp in H.
  destruct (handleSave env w) as [[r|e] w1]; cbn [fst snd].
  - destruct H as (quizId & ids & _ & _ & _ & _ & ->).
    exists dp. eexists. cbn [requests]. unfold save_plan. fold dp.
    split; [reflexivity|]. split; [now right|].
    split; [apply creates_are_posts|discriminate].
  - destruct H as (pre & req & cur & Hall & Hf & _ & Hcur & ->).
    exists dp, (pre ++ [req]). cbn [requests toasts currentQuizId].
    split; [reflexivity|]. split; [now right|]. split.
    + eapply Forall_impl; [|exact Hall].
      intros r0. unfold is_create. now destruct (method r0).
    + intros e' _. exists pre, req. auto.
Qed.

(** C8.  Without a user id or without an access token (missing or empty)
    [handleSave] returns at once: it sends no request and leaves the quiz,
    local storage, the saving flag, the progress and the toasts as they
    were. *)
Theorem handleSave_unauthenticated (w : World)
    (Hauth : truthy (userId env) = false \/ truthy (accessToken env) = false) :
  fst (handleSave env w) = Val None
  /\ requests (snd (handleSave env w)) = requests w
  /\ quiz (snd (handleSave env w)) = quiz w
  /\ currentQuizId (snd (handleSave env w)) = currentQuizId w
  /\ isSaving (snd (handleSave env w)) = isSaving w
  /\ saveProgress (snd (handleSave env w)) = saveProgress w
  /\ toasts (snd (handleSave env w)) = toasts w
  /\ saved (snd (handleSave env w)) = saved w.
Proof.
  rewrite (handleSave_guard w Hauth). simpl. repeat split.
Qed.

(** C9.  With credentials, the creation of the quiz that [handleSave]
    sends has status draft, whatever the status of the quiz in memory; its
    time limit is the quiz's, or 30 when that is missing or 0; its points
    are the quiz's, or 10 when they are missing or 0.  When the run returns,
    the quiz in memory is the one returned: it has the identifier the
    backend assigned and status draft. *)
Theorem handleSave_quiz_body (w : World)
    (Hu : truthy (userId env) = true) (Ht : truthy (accessToken env) = true) :
  let q := quiz w in
  let timeLimit :=
    match Quiz.timeLimit q with
    | None | Some 0%Z => 30%Z
    | Some v => v
    end in
  let points :=
    match Quiz.points q with
    | None | Some 0%Z => 10%Z
    | Some v => v
    end in
  let create :=
    postRequest (token env) "/quizzes/"
      (QuizBody (user env) (Quiz.title q) (Quiz.language q) (Quiz.type q)
                draft timeLimit points) in
  (exists rest,
     requests (snd (handleSave env w))
     = requests w ++ delete_plan (token env) (currentQuizId w)
         ++ create :: rest)
  /\ (forall r w', handleSave env w = (Val r, w') ->
        exists quizId,
          assigns (server env)
            (requests w ++ delete_plan (token env) (currentQuizId w))
            create quiz_id quizId
          /\ r = Some (quiz w')
          /\ Quiz.id (quiz w') = quizId
          /\ Quiz.status (quiz w') = draft
          /\ Quiz.timeLimit (quiz w') = Quiz.timeLimit q
          /\ Quiz.points (quiz w') = Quiz.points q
          /\ Quiz.questions (quiz w') = Quiz.questions q).
Proof.
  intros q timeLimit points create.
  assert (Hcreate : quizRequest (token env) (user env) q = create).
  { unfold quizRequest, create, timeLimit, points, or_default.
    destruct (Quiz.timeLimit q) as [[| |]|], (Quiz.points q) as [[| |]|];
      reflexivity. }
  pose proof (handleSave_run w Hu Ht) as H. cbn zeta in H.
  fold q in H. rewrite Hcreate in H.
  destruct (handleSave env w) as [[r|e] w1].
  - destruct H as (quizId & ids & -> & Hq & _ & _ & ->).
    split.
    + unfold save_plan. fold q. rewrite Hcreate. cbn [snd requests].
      eexists. reflexivity.
    + intros r w' E. inversion E; subst r w'. exists quizId.
      cbn [quiz]. repeat split. exact Hq.
  - destruct H as (pre & req & cur & _ & _ & (post & Hpost) & _ & ->).
    split.
    + cbn [snd requests]. rewrite Hpost. eexists. reflexivity.
    + intros r w' E. discriminate.
Qed.

End SaveFacts.

(* ================================================================= *)
(** ** The save pipeline on the demo quiz *)

Section SaveRuns.
Import QuizEditor.

(** C2.  The backend answers the creation of the first choice with an
    error status.  [handleSave] does not look at that answer: it goes on
    to create the second choice, returns the saved quiz and shows the
    success toast; no error toast is shown. *)
Theorem choice_create_failure_unnoticed :
  let env := Demo.env_with Demo.refusing_choices in
  let run := handleSave env Demo.world1 in
  let before :=
    [deleteRequest "secret" "quiz-6";
     quizRequest "secret" "user-1" Demo.quiz1;
     questionRequest "secret" "quiz-7" Demo.question1;
     imageRequest "secret" "question-9" "http://img.example/pasta.png"] in
  let choice1 := choiceRequest "secret" "question-9" Demo.piece1 in
  let choice2 := choiceRequest "secret" "question-9" Demo.piece2 in
  requests (snd run) = before ++ [choice1; choice2]
  /\ failed (server env before choice1) = true
  /\ fst run = Val (Some (updatedQuiz env Demo.quiz1 "quiz-7"))
  /\ toasts (snd run) = [success_toast].
Proof.
  cbv zeta. repeat split.
Qed.

(** The same for the creation of an image: the error status goes
    unnoticed and the run ends with the success toast. *)
Example image_create_failure_unnoticed :
  let env := Demo.env_with Demo.refusing_images in
  let run := handleSave env Demo.world1 in
  map url (requests (snd run))
  = ["http://localhost:8001/quizzes/quiz-6"; "http://localhost:8001/quizzes/";
     "http://localhost:8001/questions";
     "http://localhost:8001/question-images";
     "http://localhost:8001/choices"; "http://localhost:8001/choices"]
  /\ fst run = Val (Some (updatedQuiz env Demo.quiz1 "quiz-7"))
  /\ toasts (snd run) = [success_toast].
Proof.
  cbv zeta. repeat split.
Qed.

(** A creation of a choice that gets no answer at all does stop the save:
    the rejection of [fetch] is thrown, the second choice is not sent, the
    error toast is shown. *)
Example choice_create_rejection_aborts :
  let env := Demo.env_with Demo.unreachable_for_choices in
  let run := handleSave env Demo.world1 in
  map url (requests (snd run))
  = ["http://localhost:8001/quizzes/quiz-6"; "http://localhost:8001/quizzes/";
     "http://localhost:8001/questions";
     "http://localhost:8001/question-images";
     "http://localhost:8001/choices"]
  /\ fst run = Throw FetchRejected
  /\ toasts (snd run) = [error_toast]
  /\ isSaving (snd run) = false
  /\ currentQuizId (snd run) = Some "quiz-7".
Proof.
  cbv zeta. repeat split.
Qed.

Lemma handleSave_request_sequence_witness :
  handleSave (Demo.env_with Demo.accepting) Demo.world1
  = (Val (Some (updatedQuiz (Demo.env_with Demo.accepting) Demo.quiz1 "quiz-7")),
     snd (handleSave (Demo.env_with Demo.accepting) Demo.world1))
  /\ exists quizId questionIds,
       length questionIds = 1
       /\ requests (snd (handleSave (Demo.env_with Demo.accepting) Demo.world1))
          = save_plan "secret" "user-1" (Some "quiz-6") Demo.quiz1 quizId
                      questionIds
       /\ assigns Demo.accepting [deleteRequest "secret" "quiz-6"]
            (quizRequest "secret" "user-1" Demo.quiz1) quiz_id quizId
       /\ assigned_in_turn Demo.accepting
            [deleteRequest "secret" "quiz-6";
             quizRequest "secret" "user-1" Demo.quiz1]
            "secret" quizId [Demo.question1] questionIds
       /\ (forall pre req post,
             save_plan "secret" "user-1" (Some "quiz-6") Demo.quiz1 quizId
                       questionIds
             = pre ++ req :: post ->
             method req = POST ->
             exists resp, Demo.accepting pre req = Resolved resp).
Proof.
  assert (Hrun :
    handleSave (Demo.env_with Demo.accepting) Demo.world1
    = (Val (Some (updatedQuiz (Demo.env_with Demo.accepting) Demo.quiz1
                              "quiz-7")),
       snd (handleSave (Demo.env_with Demo.accepting) Demo.world1)))
    by reflexivity.
  split; [exact Hrun|].
  destruct (handleSave_request_sequence (Demo.env_with Demo.accepting)
              Demo.world1 _ _ Hrun)
    as (quizId & ids & Hlen & Hreq & Hq & Hass & Hanswered & _).
  exists quizId, ids.
  split; [exact Hlen|]. split; [exact Hreq|]. split; [exact Hq|].
  split; [exact Hass|exact Hanswered].
Defined.

Lemma handleSave_delete_best_effort_witness :
  exists rest logs,
    requests (snd (handleSave (Demo.env_with Demo.refusing_questions)
                              Demo.world1))
    = deleteRequest "secret" "quiz-6"
        :: quizRequest "secret" "user-1" Demo.quiz1 :: rest
    /\ console (snd (handleSave (Demo.env_with Demo.refusing_questions)
                                Demo.world1))
       = log_error "Error deleting existing quiz:" (Some FetchRejected) :: logs.
Proof.
  destruct (handleSave_delete_best_effort
              (Demo.env_with Demo.refusing_questions) Demo.world1 "quiz-6"
              eq_refl eq_refl eq_refl ltac:(discriminate))
    as (rest & logs & Hreq & Hlog & _).
  exists rest, logs. split; [exact Hreq|exact Hlog].
Defined.

Lemma handleSave_no_rollback_witness :
  fst (handleSave (Demo.env_with Demo.refusing_questions) Demo.world1)
  = Throw (JsError "Failed to save question: q1")
  /\ exists pre req,
       requests (snd (handleSave (Demo.env_with Demo.refusing_questions)
                                 Demo.world1))
       = [deleteRequest "secret" "quiz-6"] ++ pre ++ [req]
       /\ Forall (fun r => method r = POST) (pre ++ [req])
       /\ failed (Demo.refusing_questions
                    ([deleteRequest "secret" "quiz-6"] ++ pre) req) = true.
Proof.
  assert (Hrun :
    fst (handleSave (Demo.env_with Demo.refusing_questions) Demo.world1)
    = Throw (JsError "Failed to save question: q1"))
    by reflexivity.
  split; [exact Hrun|].
  destruct (handleSave_no_rollback (Demo.env_with Demo.refusing_questions)
              Demo.world1) as (dels & posts & Hreq & _ & Hall & Hthrow).
  destruct (Hthrow _ Hrun) as (pre & req & Hdels & Hposts & Hf & _).
  exists pre, req. rewrite Hreq, Hdels. rewrite Hposts in Hall |- *.
  split; [reflexivity|]. split; [exact Hall|exact Hf].
Defined.

Lemma handleSave_unauthenticated_witness :
  fst (handleSave Demo.signed_out Demo.world1) = Val None
  /\ requests (snd (handleSave Demo.signed_out Demo.world1)) = []
  /\ quiz (snd (handleSave Demo.signed_out Demo.world1)) = Demo.quiz1.
Proof.
  destruct (handleSave_unauthenticated Demo.signed_out Demo.world1
              (or_introl eq_refl)) as (Hret & Hreq & Hquiz & _).
  split; [exact Hret|]. split; [exact Hreq|exact Hquiz].
Defined.

Lemma handleSave_quiz_body_witness :
  exists rest,
    requests (snd (handleSave (Demo.env_with Demo.accepting) Demo.world1))
    = [deleteRequest "secret" "quiz-6"]
        ++ postRequest "secret" "/quizzes/"
             (QuizBody "user-1" "Cooking" "en" "puzzle" draft 30 10)
        :: rest.
Proof.
  exact (proj1 (handleSave_quiz_body (Demo.env_with Demo.accepting)
                  Demo.world1 eq_refl eq_refl)).
Defined.

End SaveRuns.

(* ================================================================= *)
(** ** Identifiers: where they come from, and when they stay distinct *)

Section Identifiers.
Import QuizEditor.

Lemma NoDup_app_disjoint {A : Type} (l1 l2 : list A) :
  NoDup (l1 ++ l2) -> forall a, In a l1 -> ~ In a l2.
Proof.
  induction l1 as [|x l1 IH]; intros H a Ha; [contradiction|].
  simpl in H. apply NoDup_cons_iff in H as [Hx Hrest].
  destruct Ha as [->|Ha].
  - intros Hin. apply Hx, in_or_app. now right.
  - now apply IH.
Qed.

(** Replacing the middle of a list without repetition by elements that
    were there or are new to the whole list. *)
Lemma NoDup_replace_middle {A : Type} (l1 l2 mid mid' : list A) :
  NoDup (l1 ++ mid ++ l2) ->
  NoDup mid' ->
  (forall a, In a mid' -> In a mid \/ ~ In a (l1 ++ mid ++ l2)) ->
  NoDup (l1 ++ mid' ++ l2).
Proof.
  intros Hall Hmid' Hfrom.
  assert (Hswap : forall m, Permutation (m ++ l1 ++ l2) (l1 ++ m ++ l2))
    by (intros m; apply Permutation_app_swap_app).
  eapply Permutation_NoDup; [apply Hswap|].
  apply (Permutation_NoDup (Permutation_sym (Hswap mid))) in Hall.
  apply NoDup_app; [exact Hmid'|eapply NoDup_app_remove_l; exact Hall|].
  intros a Ha Hrest. destruct (Hfrom a Ha) as [Hin|Hnew].
  - exact (NoDup_app_disjoint _ _ Hall a Hin Hrest).
  - apply Hnew. apply in_app_or in Hrest.
    apply in_or_app. destruct Hrest as [H1|H2]; [now left|].
    right. apply in_or_app. now right.
Qed.

Lemma choice_ids_filter (f : Choice.t -> bool) (cs : list Choice.t) :
  NoDup (choice_ids cs) -> NoDup (choice_ids (filter f cs)).
Proof.
  unfold choice_ids. induction cs as [|c cs IH]; simpl; intros H; [constructor|].
  apply NoDup_cons_iff in H as [Hc Hrest].
  destruct (f c); simpl; [|now apply IH].
  constructor; [|now apply IH].
  intros Hin. apply Hc. apply in_map_iff in Hin as (x & Hx & Hin).
  apply in_map_iff. exists x. split; [exact Hx|].
  now apply filter_In in Hin.
Qed.

Lemma reindex_ids (cs : list Choice.t) :
  forall i,
    choice_ids
      (mapi_from i (fun c index => Choice.with_order (Z.of_nat index) c) cs)
    = choice_ids cs.
Proof.
  unfold choice_ids. induction cs as [|c cs IH]; intros i; simpl;
    [reflexivity|].
  now rewrite IH.
Qed.

Lemma handleTextChange_ids (choiceId value : string) (cs : list Choice.t) :
  choice_ids (PuzzleEditor.handleTextChange choiceId value cs) = choice_ids cs.
Proof.
  unfold choice_ids, PuzzleEditor.handleTextChange. rewrite map_map.
  apply map_ext. intros c.
  now destruct (String.eqb (Choice.id c) choiceId).
Qed.

Lemma splice_in_hole {A : Type} (k : nat) (l : list (option A))
    (l' : list A) :
  splice_in k None l <> map Some l'.
Proof.
  intros E. assert (H : In None (map Some l')).
  { rewrite <- E. unfold splice_in. apply in_or_app. right. now left. }
  apply in_map_iff in H as (x & Hx & _). discriminate.
Qed.

(** A drop that emits a list of choices comes from a drag that started on
    a piece of the list. *)
Lemma handleDrop_defined (p : PuzzleEditor.Props) (k : nat)
    (l : list Choice.t) :
  PuzzleEditor.handleDrop k p = Some (map Some l) ->
  exists d,
    PuzzleEditor.draggedIndex p = Some d
    /\ d < length (PuzzleEditor.choices p)
    /\ l = PuzzleEditor.move d k (PuzzleEditor.choices p).
Proof.
  destruct p as [cs [d|]]; [|discriminate]. intros H.
  destruct (Nat.lt_ge_cases d (length cs)) as [Hd|Hd].
  - rewrite handleDrop_valid in H by exact Hd.
    inversion H as [E]. apply map_Some_inj in E. exists d. auto.
  - rewrite handleDrop_hole in H by exact Hd.
    inversion H as [E]. now apply splice_in_hole in E.
Qed.

Lemma choice_ids_delete (choiceId : string) (cs : list Choice.t) :
  choice_ids (filter (fun c => negb (String.eqb (Choice.id c) choiceId)) cs)
  = filter (fun i => negb (String.eqb i choiceId)) (choice_ids cs).
Proof.
  unfold choice_ids. induction cs as [|c cs IH]; [reflexivity|].
  cbn [filter map].
  destruct (String.eqb (Choice.id c) choiceId); cbn [negb map];
    now rewrite IH.
Qed.

(** What a mutation of the PuzzleEditor does to the identifiers. *)
Lemma mutate_choice_ids (p : PuzzleEditor.Props) (m : PuzzleEditor.Mutation)
    (emitted : list Choice.t) :
  PuzzleEditor.mutate m p = Some (map Some emitted) ->
  choice_ids_after m (choice_ids (PuzzleEditor.choices p))
                   (choice_ids emitted).
Proof.
  intros Hm.
  destruct m as [uuid|cid|k|random|cid v];
    cbn [PuzzleEditor.mutate choice_ids_after] in *.
  - inversion Hm as [E]. apply map_Some_inj in E. subst emitted.
    unfold PuzzleEditor.handleAddChoice, choice_ids.
    now rewrite map_app.
  - inversion Hm as [E]. apply map_Some_inj in E. subst emitted.
    unfold PuzzleEditor.handleDeleteChoice.
    now rewrite reindex_ids, choice_ids_delete.
  - apply handleDrop_defined in Hm as (d & _ & _ & ->).
    apply Permutation_map, move_perm.
  - inversion Hm as [E]. apply map_Some_inj in E. subst emitted.
    apply Permutation_map, handleShuffle_perm.
  - inversion Hm as [E]. apply map_Some_inj in E. subst emitted.
    apply handleTextChange_ids.
Qed.

(** Identifiers that were distinct are distinct after a mutation whose
    generated identifier is not in use, and each is one that was there or
    a new one. *)
Lemma choice_ids_after_distinct (m : PuzzleEditor.Mutation)
    (ids ids' used : list string) :
  choice_ids_after m ids ids' ->
  NoDup ids ->
  incl ids used ->
  fresh_for used m ->
  NoDup ids' /\ forall i, In i ids' -> In i ids \/ ~ In i used.
Proof.
  intros Hafter Hnd Hincl Hfresh.
  destruct m as [uuid|cid|k|random|cid v];
    cbn [choice_ids_after fresh_for] in *.
  - subst ids'. split.
    + apply NoDup_app; [exact Hnd|repeat constructor; intros []|].
      intros a Ha [<-|[]]. apply Hfresh, Hincl, Ha.
    + intros i Hi. apply in_app_or in Hi as [Hi|[<-|[]]]; [now left|now right].
  - subst ids'. split; [now apply NoDup_filter|].
    intros i Hi. left. now apply filter_In in Hi.
  - split; [eapply Permutation_NoDup; eassumption|].
    intros i Hi. left. eapply Permutation_in; [symmetry|]; eassumption.
  - split; [eapply Permutation_NoDup; eassumption|].
    intros i Hi. left. eapply Permutation_in; [symmetry|]; eassumption.
  - subst ids'. split; [exact Hnd|]. intros i Hi. now left.
Qed.

Lemma question_ids_in_quiz (q : Question.t) (qs : list Question.t) :
  In q qs -> incl (question_ids q) (flat_map question_ids qs).
Proof.
  intros Hq i Hi. apply in_flat_map. now exists q.
Qed.

Lemma quiz_ids_filter (f : Question.t -> bool) (qs : list Question.t) :
  NoDup (flat_map question_ids qs) ->
  NoDup (flat_map question_ids (filter f qs)).
Proof.
  induction qs as [|q qs IH]; intros H; [constructor|].
  cbn [flat_map filter] in *.
  destruct (f q); cbn [flat_map].
  - apply NoDup_app.
    + eapply NoDup_app_remove_r; exact H.
    + apply IH. eapply NoDup_app_remove_l; exact H.
    + intros a Ha Hin. apply (NoDup_app_disjoint _ _ H a Ha).
      apply in_flat_map in Hin as (x & Hx & Hin).
      apply in_flat_map. exists x. split; [|exact Hin].
      now apply filter_In in Hx.
  - apply IH. eapply NoDup_app_remove_l; exact H.
Qed.

(** With distinct identifiers, [handleQuestionUpdate] rewrites exactly the
    question it is given a new version of. *)
Lemma replace_question (qs : list Question.t) (q q' : Question.t) :
  NoDup (flat_map question_ids qs) ->
  In q qs ->
  Question.id q' = Question.id q ->
  exists l1 l2,
    qs = l1 ++ q :: l2
    /\ map (fun x => if String.eqb (Question.id x) (Question.id q')
                     then q' else x) qs
       = l1 ++ q' :: l2.
Proof.
  intros Hnd Hq Hid.
  destruct (in_split q qs Hq) as (l1 & l2 & ->).
  exists l1, l2. split; [reflexivity|].
  assert (Hother : forall x, In x l1 \/ In x l2 ->
                     String.eqb (Question.id x) (Question.id q') = false).
  { intros x Hx. apply String.eqb_neq. rewrite Hid. intros E.
    rewrite flat_map_app in Hnd. cbn [flat_map] in Hnd.
    destruct Hx as [Hx|Hx].
    - apply (NoDup_app_disjoint _ _ Hnd (Question.id x)).
      + apply in_flat_map. exists x. split; [exact Hx|now left].
      + rewrite E. apply in_or_app. left. now left.
    - apply NoDup_app_remove_l in Hnd.
      apply (NoDup_app_disjoint _ _ Hnd (Question.id q)).
      + now left.
      + rewrite <- E. apply in_flat_map. exists x. split; [exact Hx|now left]. }
  rewrite map_app; cbn [map]. rewrite Hid, String.eqb_refl.
  f_equal; [|f_equal].
  - rewrite <- (map_id l1) at 2. apply map_ext_in. intros x Hx.
    rewrite <- Hid. now rewrite Hother by auto.
  - rewrite <- (map_id l2) at 2. apply map_ext_in. intros x Hx.
    rewrite <- Hid. now rewrite Hother by auto.
Qed.

Lemma handleQuestionUpdate_ids (w : World) (q q' : Question.t) :
  NoDup (quiz_ids (quiz w)) ->
  In q (Quiz.questions (quiz w)) ->
  Question.id q' = Question.id q ->
  NoDup (choice_ids (Question.choices q')) ->
  (forall i, In i (choice_ids (Question.choices q')) ->
             In i (choice_ids (Question.choices q))
             \/ ~ In i (quiz_ids (quiz w))) ->
  NoDup (quiz_ids (quiz (handleQuestionUpdate q' w))).
Proof.
  unfold quiz_ids. intros Hnd Hq Hid Hnd' Hfrom.
  destruct (replace_question _ q q' Hnd Hq Hid) as (l1 & l2 & Hqs & Hmap).
  assert (Hshape : forall x,
            flat_map question_ids (l1 ++ x :: l2)
            = (flat_map question_ids l1 ++ [Question.id x])
                ++ choice_ids (Question.choices x)
                ++ flat_map question_ids l2).
  { intros x. rewrite flat_map_app. cbn [flat_map].
    unfold question_ids at 2. now rewrite <- app_assoc. }
  unfold handleQuestionUpdate, setQuiz.
  cbn [quiz Quiz.questions Quiz.with_questions].
  rewrite Hmap, Hshape, Hid.
  rewrite Hqs, Hshape in Hnd, Hfrom.
  now apply NoDup_replace_middle with (mid := choice_ids (Question.choices q)).
Qed.

Lemma quiz_ids_delete (questionId : string) (qs : list Question.t) :
  flat_map question_ids
    (filter (fun q => negb (String.eqb (Question.id q) questionId)) qs)
  = flat_map (fun q => if String.eqb (Question.id q) questionId
                       then [] else question_ids q) qs.
Proof.
  induction qs as [|q qs IH]; [reflexivity|].
  cbn [filter flat_map].
  destruct (String.eqb (Question.id q) questionId); cbn [negb flat_map app];
    now rewrite IH.
Qed.

Lemma handleDeleteQuestion_quiz (questionId : string) (w : World) :
  quiz (handleDeleteQuestion questionId w)
  = Quiz.with_questions
      (filter (fun q => negb (String.eqb (Question.id q) questionId))
              (Quiz.questions (quiz w))) (quiz w).
Proof.
  unfold handleDeleteQuestion.
  destruct (selectedQuestionId w) as [sel|]; [|reflexivity].
  now destruct (String.eqb sel questionId).
Qed.

(** The identifiers that a handler leaves. *)
Lemma run_op_ids (s : Session) (op : Op) :
  quiz_ids (quiz (run_op op (shown s))) = ids_after s (Handler op).
Proof.
  destruct op as [uuid|questionId|reordered|updated|updated];
    cbn [run_op ids_after].
  - unfold handleAddQuestion, setSelectedQuestionId, setQuiz, quiz_ids.
    cbn [quiz Quiz.questions Quiz.with_questions].
    now rewrite flat_map_app.
  - rewrite handleDeleteQuestion_quiz. unfold quiz_ids.
    cbn [Quiz.questions Quiz.with_questions]. apply quiz_ids_delete.
  - reflexivity.
  - unfold handleQuestionUpdate, setQuiz, quiz_ids.
    cbn [quiz Quiz.questions Quiz.with_questions].
    induction (Quiz.questions (quiz (shown s))) as [|q qs IH];
      [reflexivity|].
    cbn [map flat_map]. rewrite IH.
    now destruct (String.eqb (Question.id q) (Question.id updated)).
  - reflexivity.
Qed.

Lemma quiz_ids_updatedQuiz (env : Env) (q : Quiz.t) (quizId : string) :
  quiz_ids (updatedQuiz env q quizId) = quiz_ids q.
Proof. reflexivity. Qed.

Lemma session_step_ids (s s' : Session) (ev : Event) :
  session_step s ev s' -> quiz_ids (quiz (shown s')) = ids_after s ev.
Proof.
  intros Hstep.
  destruct Hstep as [s op | s w' [Hquiz _]
                    | s env n quizId closed w' Hnth Hquiz _
                    | s n closed w' _ [Hquiz _]];
    cbn [shown ids_after].
  - apply run_op_ids.
  - now rewrite Hquiz.
  - now rewrite Hnth, Hquiz.
  - now rewrite Hquiz.
Qed.

Lemma Forall_remove_nth {A : Type} (P : A -> Prop) (n : nat) (l : list A) :
  Forall P l -> Forall P (remove_nth n l).
Proof.
  intros H. rewrite Forall_forall in *. intros x Hx. apply H.
  unfold remove_nth in Hx. apply in_app_or in Hx as [Hx|Hx].
  - rewrite <- (firstn_skipn n l). apply in_or_app. now left.
  - rewrite <- (firstn_skipn (S n) l). apply in_or_app. now right.
Qed.

(** The choices of a question of a quiz with distinct identifiers have
    distinct identifiers, which are identifiers of the quiz. *)
Lemma question_choice_ids (q : Question.t) (quiz : Quiz.t) :
  NoDup (quiz_ids quiz) ->
  In q (Quiz.questions quiz) ->
  NoDup (choice_ids (Question.choices q))
  /\ incl (choice_ids (Question.choices q)) (quiz_ids quiz).
Proof.
  intros Hnd Hq. split.
  - destruct (in_split q _ Hq) as (l1 & l2 & E).
    unfold quiz_ids in Hnd. rewrite E, flat_map_app in Hnd.
    cbn [flat_map] in Hnd.
    apply NoDup_app_remove_l, NoDup_app_remove_r in Hnd.
    now apply NoDup_cons_iff in Hnd.
  - intros i Hi. apply (question_ids_in_quiz q _ Hq). now right.
Qed.

Lemma session_step_distinct (s s' : Session) (ev : Event) :
  distinct_ids s -> issued s ev -> session_step s ev s' -> distinct_ids s'.
Proof.
  intros [Hshown Hclosed] Hissued Hstep.
  pose proof (session_step_ids s s' ev Hstep) as Hids.
  unfold distinct_ids. rewrite Hids. clear Hids.
  destruct Hstep as [s op | s w' _
                    | s env n quizId closed w' Hnth _ _
                    | s n closed w' _ _];
    cbn [shown closed_over ids_after].
  - split; [|exact Hclosed].
    inversion Hissued as [uuid Hfresh | questionId
                         | q p m cs' Hq Hp Hfresh Hm
                         | op' Hstores Hgiven | | | ]; subst.
    + cbn [ids_after].
      apply NoDup_app; [exact Hshown|repeat constructor; intros []|].
      intros a Ha [<-|[]]. exact (Hfresh Ha).
    + cbn [ids_after]. rewrite <- quiz_ids_delete.
      now apply quiz_ids_filter.
    + change (NoDup (ids_after s (Handler (QuestionUpdate
                                            (Question.with_choices cs' q))))).
      rewrite <- run_op_ids. cbn [run_op].
      destruct (question_choice_ids q _ Hshown Hq) as [Hndq Hincl].
      pose proof (mutate_choice_ids p m cs' Hm) as Hafter.
      rewrite Hp in Hafter.
      destruct (choice_ids_after_distinct m _ _ _ Hafter Hndq Hincl Hfresh)
        as [Hnd' Hfrom].
      now apply (handleQuestionUpdate_ids (shown s) q).
    + exact Hgiven.
  - split; [exact Hshown|].
    apply Forall_app. split; [exact Hclosed|]. now constructor.
  - split; [|now apply Forall_remove_nth].
    rewrite Hnth. rewrite Forall_forall in Hclosed.
    apply Hclosed. eapply nth_error_In, Hnth.
  - split; [exact Hshown|now apply Forall_remove_nth].
Qed.

(** C7.  Identifiers come from the generator only, once each: a mutation
    of the PuzzleEditor that emits a list of choices leaves the identifiers
    of the choices as they were, in the same or another order, but for the
    one that [handleAddChoice] generates, at the end, and the one that
    [handleDeleteChoice] removes; in the shell, [handleAddQuestion] adds the
    generated identifier at the end and [handleDeleteQuestion] removes those
    of the question deleted, while [handleQuestionUpdate],
    [handleReorderQuestions] and [handleQuizUpdate] store what they are
    given and a save that returns puts back the quiz it closed over.  So
    the identifiers of the quiz shown, pairwise distinct before an event,
    are pairwise distinct after it when a generated identifier is fresh
    and a value handed in is what the PuzzleEditor emitted or has distinct
    identifiers itself. *)
Theorem ids_generated_once :
  (forall (p : PuzzleEditor.Props) (m : PuzzleEditor.Mutation)
          (emitted : list Choice.t),
      PuzzleEditor.mutate m p = Some (map Some emitted) ->
      choice_ids_after m (choice_ids (PuzzleEditor.choices p))
                       (choice_ids emitted))
  /\ (forall (s s' : Session) (ev : Event),
        session_step s ev s' ->
        quiz_ids (quiz (shown s')) = ids_after s ev)
  /\ (forall (s s' : Session) (ev : Event),
        distinct_ids s -> issued s ev -> session_step s ev s' ->
        distinct_ids s').
Proof.
  split; [exact mutate_choice_ids|].
  split; [exact session_step_ids|exact session_step_distinct].
Qed.

Lemma ids_generated_once_witness :
  distinct_ids Demo.session1
  /\ issued Demo.session1 (Handler Demo.add_second)
  /\ quiz_ids (quiz (run_op Demo.add_second Demo.world1))
     = ["q1"; "c1"; "c2"; "q2"]
  /\ distinct_ids
       (mkSession (run_op Demo.add_second Demo.world1) [])
  /\ choice_ids (PuzzleEditor.handleAddChoice "c9" [Demo.piece1; Demo.piece2])
     = ["c1"; "c2"; "c9"].
Proof.
  assert (Hdistinct : distinct_ids Demo.session1).
  { split; [|constructor].
    vm_compute. repeat constructor; simpl; intuition discriminate. }
  assert (Hissued : issued Demo.session1 (Handler Demo.add_second)).
  { apply issued_add. vm_compute. intuition discriminate. }
  pose proof (session_handler Demo.session1 Demo.add_second) as Hstep.
  split; [exact Hdistinct|]. split; [exact Hissued|].
  destruct ids_generated_once as (Hchoices & Hids & Hkeeps).
  split; [exact (Hids _ _ _ Hstep)|].
  split; [exact (Hkeeps _ _ _ Hdistinct Hissued Hstep)|].
  exact (Hchoices (PuzzleEditor.mkProps [Demo.piece1; Demo.piece2] None)
                  (PuzzleEditor.AddChoice "c9") _ eq_refl).
Defined.

(** The identifiers do not stay distinct after every operation of the
    editor: the handlers that store what they are given store a list that
    holds a question twice.  No identifier is generated here. *)
Lemma stored_list_repeats_ids :
  NoDup (quiz_ids (quiz Demo.world1))
  /\ quiz_ids (quiz (handleReorderQuestions [Demo.question1; Demo.question1]
                                            Demo.world1))
     = ["q1"; "c1"; "c2"; "q1"; "c1"; "c2"]
  /\ ~ NoDup (quiz_ids (quiz (handleReorderQuestions
                                [Demo.question1; Demo.question1]
                                Demo.world1))).
Proof.
  split; [|split; [reflexivity|]].
  - vm_compute. repeat constructor; simpl; intuition discriminate.
  - intros H. apply NoDup_cons_iff in H as [H _].
    apply H. vm_compute. auto.
Qed.

End Identifiers.

(* ================================================================= *)
(** ** Sorting by an integer key, and searching by identifier *)

Section SortFacts.
Context {A : Type}.

(** A list that is in order already is left as it is. *)
Lemma sort_by_fixed (cmp : A -> A -> Q) (l : list A) :
  StronglySorted (before cmp) l -> sort_by cmp l = l.
Proof.
  induction 1 as [|a l Hsorted IH Hhead]; [reflexivity|].
  cbn [sort_by]. rewrite IH.
  destruct l as [|y l']; [reflexivity|].
  cbn [sort_insert]. apply Forall_inv in Hhead.
  unfold before in Hhead. now rewrite Hhead.
Qed.

Variable key : A -> Z.

Lemma by_key_before (a b : A) :
  Qle_bool (by_key key a b) 0 = true <-> (key a <= key b)%Z.
Proof.
  unfold by_key. rewrite Qle_bool_iff.
  change 0%Q with (inject_Z 0). rewrite <- Zle_Qle. lia.
Qed.

Lemma sort_insert_sorted (x : A) (l : list A) :
  StronglySorted (fun a b => (key a <= key b)%Z) l ->
  StronglySorted (fun a b => (key a <= key b)%Z) (sort_insert (by_key key) x l).
Proof.
  induction 1 as [|y l Hsorted IH Hhead]; cbn [sort_insert].
  - repeat constructor.
  - destruct (Qle_bool (by_key key x y) 0) eqn:E.
    + apply by_key_before in E.
      constructor; [now constructor|].
      constructor; [exact E|].
      eapply Forall_impl; [|exact Hhead]. cbn. intros b Hb. lia.
    + assert (Hlt : (key y <= key x)%Z).
      { destruct (Z.le_gt_cases (key x) (key y)) as [Hle|Hgt]; [|lia].
        apply by_key_before in Hle. congruence. }
      constructor; [exact IH|].
      eapply Permutation_Forall; [apply sort_insert_perm|].
      now constructor.
Qed.

Lemma sort_by_sorted (l : list A) :
  StronglySorted (fun a b => (key a <= key b)%Z) (sort_by (by_key key) l).
Proof.
  induction l as [|x l IH]; cbn [sort_by]; [constructor|].
  now apply sort_insert_sorted.
Qed.

Lemma sorted_strict (l : list A) :
  StronglySorted (fun a b => (key a <= key b)%Z) l ->
  NoDup (map key l) ->
  StronglySorted (fun a b => (key a < key b)%Z) l.
Proof.
  induction 1 as [|a l Hsorted IH Hhead]; intros Hnd; [constructor|].
  cbn [map] in Hnd. apply NoDup_cons_iff in Hnd as [Ha Hnd].
  constructor; [now apply IH|].
  rewrite Forall_forall in *. intros b Hb.
  assert (key a <> key b) by (intros E; apply Ha; rewrite E; now apply in_map).
  specialize (Hhead b Hb). cbn in Hhead. lia.
Qed.

(** Two lists in strict order of their keys that hold the same elements
    are the same list. *)
Lemma sorted_perm_eq (l l' : list A) :
  StronglySorted (fun a b => (key a < key b)%Z) l ->
  StronglySorted (fun a b => (key a < key b)%Z) l' ->
  Permutation l l' -> l = l'.
Proof.
  intros Hl; revert l'.
  induction Hl as [|a l Hsorted IH Hhead]; intros l' Hl' HP.
  - now apply Permutation_nil in HP.
  - destruct Hl' as [|b l' Hsorted' Hhead'].
    + symmetry in HP. now apply Permutation_nil in HP.
    + assert (Hab : a = b).
      { assert (Ha : In a (b :: l'))
          by (eapply Permutation_in; [exact HP|now left]).
        assert (Hb : In b (a :: l))
          by (eapply Permutation_in; [symmetry; exact HP|now left]).
        destruct Ha as [Ha|Ha]; [now symmetry|].
        destruct Hb as [Hb|Hb]; [exact Hb|].
        rewrite Forall_forall in Hhead, Hhead'.
        specialize (Hhead _ Hb). specialize (Hhead' _ Ha).
        cbn in Hhead, Hhead'. lia. }
      subst b. f_equal. apply IH; [exact Hsorted'|].
      eapply Permutation_cons_inv; exact HP.
Qed.

(** With keys that are pairwise distinct, the sorted list depends on the
    elements only, not on the order they came in. *)
Lemma sort_by_perm_eq (l l' : list A) :
  Permutation l l' -> NoDup (map key l) ->
  sort_by (by_key key) l = sort_by (by_key key) l'.
Proof.
  intros HP Hnd.
  assert (HPl : Permutation l (sort_by (by_key key) l)) by apply sort_by_perm.
  assert (HPl' : Permutation l' (sort_by (by_key key) l')) by apply sort_by_perm.
  apply sorted_perm_eq.
  - apply sorted_strict; [apply sort_by_sorted|].
    eapply Permutation_NoDup; [apply Permutation_map, HPl|exact Hnd].
  - apply sorted_strict; [apply sort_by_sorted|].
    eapply Permutation_NoDup; [|exact Hnd].
    apply Permutation_map. now rewrite <- HPl'.
  - now rewrite <- HPl, <- HPl'.
Qed.

Lemma sorted_map (l : list A) :
  StronglySorted Z.lt (map key l) <->
  StronglySorted (fun a b => (key a < key b)%Z) l.
Proof.
  induction l as [|a l IH]; cbn [map]; split; intros H;
    try constructor; inversion H; subst.
  - now apply IH.
  - rewrite Forall_forall in *. intros b Hb.
    match goal with Hh : forall _, In _ (map key l) -> _ |- _ =>
      apply Hh; now apply in_map end.
  - now apply IH.
  - rewrite Forall_forall in *. intros z Hz.
    apply in_map_iff in Hz as (b & <- & Hb). auto.
Qed.

End SortFacts.

Section SearchFacts.

Lemma seq_sorted (n : nat) :
  forall i, StronglySorted Z.lt (map Z.of_nat (seq i n)).
Proof.
  induction n as [|n IH]; intros i; cbn [seq map]; constructor; [apply IH|].
  rewrite Forall_forall. intros z Hz.
  apply in_map_iff in Hz as (j & <- & Hj). apply in_seq in Hj. lia.
Qed.

(** Among choices with pairwise distinct identifiers, the search for the
    identifier of the choice at [k] stops at [k]. *)
Lemma findIndex_from_nodup (l : list Choice.t) (c : Choice.t) :
  forall i k,
    NoDup (map Choice.id l) ->
    nth_error l k = Some c ->
    findIndex_from (fun x => String.eqb (Choice.id x) (Choice.id c)) i l
    = Z.of_nat (i + k).
Proof.
  induction l as [|x l IH]; intros i k Hnd Hk; [now destruct k|].
  cbn [map] in Hnd. apply NoDup_cons_iff in Hnd as [Hx Hnd].
  destruct k as [|k]; cbn [nth_error findIndex_from] in *.
  - inversion Hk; subst x. rewrite String.eqb_refl. f_equal. lia.
  - assert (E : String.eqb (Choice.id x) (Choice.id c) = false).
    { apply String.eqb_neq. intros E. apply Hx. rewrite E.
      apply in_map. eapply nth_error_In; exact Hk. }
    rewrite E, (IH (S i) k Hnd Hk). f_equal. lia.
Qed.

(** A search that has something to find returns the index of an element
    of the list. *)
Lemma findIndex_from_found {A : Type} (f : A -> bool) (l : list A) :
  forall i, (exists x, In x l /\ f x = true) ->
            (Z.of_nat i <= findIndex_from f i l
             < Z.of_nat i + Z.of_nat (length l))%Z.
Proof.
  induction l as [|x l IH]; intros i (y & Hy & Hf); [contradiction|].
  cbn [findIndex_from length]. destruct (f x) eqn:E; [lia|].
  destruct Hy as [->|Hy]; [congruence|].
  specialize (IH (S i) (ex_intro _ y (conj Hy Hf))). lia.
Qed.

End SearchFacts.

(* ================================================================= *)
(** ** PuzzleEditor: further properties of the handlers *)

Section PuzzleEditorMore.
Import PuzzleEditor.

Lemma order_or_zero_order (c : Choice.t) : order_or_zero c = Choice.order c.
Proof.
  unfold order_or_zero. destruct (Z.eqb_spec (Choice.order c) 0); congruence.
Qed.

Lemma sortedChoices_perm (cs : list Choice.t) :
  Permutation cs (sortedChoices cs).
Proof. apply sort_by_perm. Qed.

Lemma reindex_content (l : list Choice.t) :
  forall i,
    map (Choice.with_order 0)
        (mapi_from i (fun c index => Choice.with_order (Z.of_nat index) c) l)
    = map (Choice.with_order 0) l.
Proof.
  induction l as [|c l IH]; intros i; cbn [mapi_from map]; [reflexivity|].
  now rewrite IH.
Qed.

(** X1.  [handleDeleteChoice] leaves no choice with the identifier it was
    given, numbers the choices that stay 0, 1, 2, ... in the order they are
    shown, and changes nothing else: order fields aside, the list it emits
    is the input without the choices of that identifier. *)
Theorem handleDeleteChoice_result (choiceId : string) (cs : list Choice.t) :
  existsb (fun c => String.eqb (Choice.id c) choiceId)
          (handleDeleteChoice choiceId cs) = false
  /\ map Choice.order (handleDeleteChoice choiceId cs)
     = map Z.of_nat (seq 0 (length (handleDeleteChoice choiceId cs)))
  /\ map (Choice.with_order 0) (handleDeleteChoice choiceId cs)
     = map (Choice.with_order 0)
           (filter (fun c => negb (String.eqb (Choice.id c) choiceId)) cs).
Proof.
  split; [|split].
  - destruct (existsb _ _) eqn:E; [exfalso|reflexivity].
    apply existsb_exists in E as (c & Hin & Hc).
    apply (in_map Choice.id) in Hin.
    unfold handleDeleteChoice in Hin.
    change (map Choice.id ?l) with (QuizEditor.choice_ids l) in Hin.
    rewrite reindex_ids in Hin. unfold QuizEditor.choice_ids in Hin.
    apply in_map_iff in Hin as (c' & Hid & Hin').
    apply filter_In in Hin' as [_ Hkeep].
    rewrite Hid, Hc in Hkeep. discriminate.
  - unfold handleDeleteChoice. now rewrite reindex_order, mapi_from_length.
  - apply reindex_content.
Qed.

(** X2.  An edit gives the new text to every piece that has the
    identifier and leaves the others their own; editing the text of a piece
    twice leaves the second text; and an edit changes texts only: the list
    it emits is the input, texts aside. *)
Theorem handleTextChange_last_wins (choiceId first second : string)
    (cs : list Choice.t) :
  map Choice.text (handleTextChange choiceId second cs)
  = map (fun c => if String.eqb (Choice.id c) choiceId
                  then second else Choice.text c) cs
  /\ handleTextChange choiceId second (handleTextChange choiceId first cs)
     = handleTextChange choiceId second cs
  /\ map (Choice.with_text "") (handleTextChange choiceId second cs)
     = map (Choice.with_text "") cs.
Proof.
  unfold handleTextChange. rewrite !map_map.
  split; [|split]; apply map_ext; intros c.
  - now destruct (String.eqb (Choice.id c) choiceId).
  - destruct (String.eqb (Choice.id c) choiceId) eqn:E; cbn [Choice.id Choice.with_text];
      now rewrite E.
  - now destruct (String.eqb (Choice.id c) choiceId).
Qed.

(** Putting an element back where it was taken out. *)
Lemma splice_in_restore {A : Type} (d : nat) (x : A) (l : list A) :
  nth_error l d = Some x ->
  splice_in d x (snd (splice_out d l)) = l.
Proof.
  intros Hx.
  assert (Hd : d < length l) by (apply nth_error_Some; congruence).
  unfold splice_in, splice_out; cbn [snd].
  assert (Hlen : length (firstn d l) = d)
    by (rewrite length_firstn; apply Nat.min_l; apply Nat.lt_le_incl, Hd).
  rewrite firstn_app, Hlen, Nat.sub_diag, firstn_O, app_nil_r.
  rewrite firstn_firstn, Nat.min_id.
  rewrite skipn_app, Hlen, Nat.sub_diag.
  rewrite (skipn_all2 (firstn d l)) by (rewrite Hlen; apply Nat.le_refl).
  cbn [skipn app].
  symmetry. now apply splice_out_split.
Qed.

Lemma move_back {A : Type} (d k : nat) (l : list A) :
  d < length l -> k < length l -> move k d (move d k l) = l.
Proof.
  intros Hd Hk. unfold move at 2.
  destruct (nth_error l d) as [x|] eqn:E;
    [|apply nth_error_None in E; exfalso;
      exact (Nat.lt_irrefl _ (Nat.lt_le_trans _ _ _ Hd E))].
  assert (Hrest : k <= length (snd (splice_out d l))).
  { apply Nat.lt_succ_r. now rewrite splice_out_length. }
  unfold move. rewrite splice_in_nth by exact Hrest.
  rewrite splice_in_out by exact Hrest.
  now apply splice_in_restore.
Qed.

(** X4.  Dropping a piece on itself emits the list as it is. *)
Theorem handleDrop_on_itself (cs : list Choice.t) (d : nat)
    (Hd : d < length cs) :
  handleDrop d (mkProps cs (Some d)) = Some (map Some cs).
Proof.
  rewrite handleDrop_valid by exact Hd. do 2 f_equal.
  unfold move. destruct (nth_error cs d) as [x|] eqn:E; [|reflexivity].
  now apply splice_in_restore.
Qed.

Lemma handleDrop_on_itself_witness :
  1 < length [Demo.piece1; Demo.piece2; Demo.piece3]
  /\ handleDrop 1 (mkProps [Demo.piece1; Demo.piece2; Demo.piece3] (Some 1))
     = Some (map Some [Demo.piece1; Demo.piece2; Demo.piece3]).
Proof.
  assert (H : 1 < length [Demo.piece1; Demo.piece2; Demo.piece3])
    by (cbn; apply Nat.lt_succ_r, Nat.le_succ_l, Nat.lt_0_succ).
  split; [exact H|].
  exact (handleDrop_on_itself [Demo.piece1; Demo.piece2; Demo.piece3] 1 H).
Defined.

(** X5.  A piece dragged from [d] to [k] and then from [k] back to [d]
    leaves the list as it was before the two drops. *)
Theorem handleDrop_back (cs cs' : list Choice.t) (d k : nat)
    (Hd : d < length cs) (Hk : k < length cs)
    (Hthere : handleDrop k (mkProps cs (Some d)) = Some (map Some cs')) :
  handleDrop d (mkProps cs' (Some k)) = Some (map Some cs).
Proof.
  rewrite handleDrop_valid in Hthere by exact Hd.
  inversion Hthere as [E]. apply map_Some_inj in E. subst cs'.
  assert (Hlen : length (move d k cs) = length cs)
    by (symmetry; apply Permutation_length, move_perm).
  rewrite handleDrop_valid by (rewrite Hlen; exact Hk).
  now rewrite move_back.
Qed.

Lemma handleDrop_back_witness :
  handleDrop 2 Demo.dragging
  = Some (map Some [Demo.piece2; Demo.piece3; Demo.piece1])
  /\ handleDrop 0 (mkProps [Demo.piece2; Demo.piece3; Demo.piece1] (Some 2))
     = Some (map Some (choices Demo.dragging)).
Proof.
  assert (Hthere : handleDrop 2 Demo.dragging
                   = Some (map Some [Demo.piece2; Demo.piece3; Demo.piece1]))
    by reflexivity.
  split; [exact Hthere|].
  refine (handleDrop_back (choices Demo.dragging) _ 0 2 _ _ Hthere);
    cbn; repeat constructor.
Defined.

(** X6.  With a drag index that is not a position of the list, [handleDrop]
    removes nothing and inserts [undefined]: the array it emits is one
    longer than the list and has a hole. *)
Theorem handleDrop_stale_index (cs : list Choice.t) (d k : nat)
    (Hstale : length cs <= d) :
  exists emitted,
    handleDrop k (mkProps cs (Some d)) = Some emitted
    /\ length emitted = S (length cs)
    /\ In None emitted
    /\ filter (fun x => match x with Some _ => true | None => false end)
              emitted
       = map Some cs.
Proof.
  rewrite handleDrop_hole by exact Hstale.
  eexists. split; [reflexivity|]. unfold splice_in. split; [|split].
  - rewrite length_app. cbn [length]. rewrite Nat.add_succ_r.
    rewrite <- length_app, firstn_skipn. now rewrite length_map.
  - apply in_or_app. right. now left.
  - rewrite filter_app. cbn [filter]. rewrite <- filter_app, firstn_skipn.
    induction cs as [|c cs IH]; [reflexivity|].
    cbn [map filter]. f_equal. apply IH.
    cbn [length] in Hstale. apply Nat.lt_le_incl, Hstale.
Qed.

Lemma handleDrop_stale_index_witness :
  length (choices Demo.stale_drag) <= 5
  /\ exists emitted,
       handleDrop 0 Demo.stale_drag = Some emitted
       /\ length emitted = 3
       /\ In None emitted.
Proof.
  assert (H : length (choices Demo.stale_drag) <= 5)
    by (cbn; repeat constructor).
  split; [exact H|].
  destruct (handleDrop_stale_index (choices Demo.stale_drag) 5 0 H)
    as (emitted & He & Hlen & Hin & _).
  exists emitted. auto.
Defined.

(** The list with its sort keys, as [handleShuffle] builds it, from the
    [i]-th call of [Math.random()] on: each key is that of a later call. *)
Lemma keyed_later (random : nat -> Q) (cs : list Choice.t) :
  forall i,
    Forall (fun a => exists j, i <= j /\ snd a = random j)
           (mapi_from i (fun value j => (value, random j)) cs).
Proof.
  induction cs as [|c cs IH]; intros i; cbn [mapi_from]; constructor.
  - exists i. split; [apply Nat.le_refl|reflexivity].
  - eapply Forall_impl; [|apply (IH (S i))].
    intros a (j & Hj & Ha). exists j. split; [|exact Ha].
    apply Nat.lt_le_incl, Hj.
Qed.

(** X7.  When the numbers that [Math.random()] returns never decrease from
    one call to the next (as when they are all equal), [handleShuffle]
    emits the list in the order it had: the sort is stable. *)
Theorem handleShuffle_monotone_keys (random : nat -> Q) (cs : list Choice.t)
    (Hmono : forall i j, i <= j -> (random i <= random j)%Q) :
  handleShuffle random cs = cs.
Proof.
  unfold handleShuffle.
  rewrite sort_by_fixed; [apply mapi_from_fst|].
  generalize 0 as i. induction cs as [|c cs IH]; intros i; cbn [mapi_from];
    constructor; [apply IH|].
  eapply Forall_impl; [|apply keyed_later].
  intros a (j & Hj & Ha). unfold before. cbn [snd].
  apply Qle_bool_iff. rewrite Ha.
  assert (H : (random i <= random j)%Q)
    by (apply Hmono, Nat.lt_le_incl, Hj).
  lra.
Qed.

Lemma handleShuffle_monotone_keys_witness :
  (forall i j, i <= j -> (Demo.steady i <= Demo.steady j)%Q)
  /\ handleShuffle Demo.steady [Demo.piece1; Demo.piece2; Demo.piece3]
     = [Demo.piece1; Demo.piece2; Demo.piece3].
Proof.
  assert (H : forall i j, i <= j -> (Demo.steady i <= Demo.steady j)%Q)
    by (intros i j _; apply Qle_refl).
  split; [exact H|].
  exact (handleShuffle_monotone_keys Demo.steady _ H).
Defined.

Lemma dense_orders_distinct (cs : list Choice.t) :
  dense cs -> NoDup (map Choice.order cs).
Proof.
  intros Hdense. eapply Permutation_NoDup; [symmetry; exact Hdense|].
  apply NoDup_map_inv with (f := Z.to_nat).
  rewrite map_map. erewrite map_ext; [rewrite map_id; apply seq_NoDup|].
  intros n. apply Nat2Z.id.
Qed.

Lemma order_keys (cs : list Choice.t) :
  map order_or_zero cs = map Choice.order cs.
Proof. apply map_ext, order_or_zero_order. Qed.

(** The sorted pieces of a list whose order fields are 0, ..., n-1 have
    these order fields in this order. *)
Lemma sortedChoices_dense (cs : list Choice.t) :
  dense cs ->
  map Choice.order (sortedChoices cs) = map Z.of_nat (seq 0 (length cs)).
Proof.
  intros Hdense.
  assert (HP : Permutation cs (sortedChoices cs)) by apply sortedChoices_perm.
  assert (Hnd : NoDup (map order_or_zero (sortedChoices cs))).
  { rewrite order_keys. eapply Permutation_NoDup;
      [apply Permutation_map, HP|now apply dense_orders_distinct]. }
  rewrite <- order_keys.
  apply (sorted_perm_eq (fun z : Z => z)).
  - apply sorted_map. apply sorted_strict; [apply sort_by_sorted|exact Hnd].
  - apply seq_sorted.
  - rewrite order_keys, <- HP. exact Hdense.
Qed.

(** X8.  In a list whose order fields are exactly 0, ..., n-1 and whose
    identifiers are pairwise distinct, the number shown in the badge of a
    piece is its order field plus one, wherever the piece stands. *)
Theorem correctPosition_dense (cs : list Choice.t) (c : Choice.t)
    (Hdense : dense cs) (Hids : NoDup (map Choice.id cs)) (Hc : In c cs) :
  correctPosition cs c = (Choice.order c + 1)%Z.
Proof.
  assert (HP : Permutation cs (sortedChoices cs)) by apply sortedChoices_perm.
  assert (Hin : In c (sortedChoices cs)) by (eapply Permutation_in; eassumption).
  apply In_nth_error in Hin as (k & Hk).
  assert (Hids' : NoDup (map Choice.id (sortedChoices cs))).
  { eapply Permutation_NoDup; [apply Permutation_map, HP|exact Hids]. }
  unfold correctPosition, findIndex.
  rewrite (findIndex_from_nodup _ c 0 k Hids' Hk). cbn [Nat.add].
  f_equal.
  pose proof (map_nth_error Choice.order k _ Hk) as Ho.
  rewrite (sortedChoices_dense cs Hdense) in Ho.
  rewrite nth_error_map, nth_error_seq in Ho.
  destruct (k <? length cs); cbn in Ho; [|discriminate].
  now inversion Ho.
Qed.

Lemma correctPosition_dense_witness :
  dense (choices Demo.dragging)
  /\ forall c, In c (choices Demo.dragging) ->
       correctPosition (choices Demo.dragging) c = (Choice.order c + 1)%Z.
Proof.
  assert (Hdense : dense (choices Demo.dragging)) by apply perm_swap.
  assert (Hids : NoDup (map Choice.id (choices Demo.dragging))).
  { cbn. repeat constructor; cbn; intuition discriminate. }
  split; [exact Hdense|].
  intros c Hc.
  exact (correctPosition_dense (choices Demo.dragging) c Hdense Hids Hc).
Defined.

(** X9.  With order fields that are pairwise distinct, a drop and a
    shuffle leave the correct sequence as it is: the sorted pieces of the
    list they emit are those of the input, so every badge shows the number
    it showed. *)
Theorem rearranging_keeps_sequence (p : Props) (m : Mutation)
    (cs' : list Choice.t)
    (Horders : NoDup (map Choice.order (choices p)))
    (Hdrag : drag_valid p)
    (Hm : match m with Drop _ | Shuffle _ => True | _ => False end)
    (Hemitted : mutate m p = Some (map Some cs')) :
  sortedChoices cs' = sortedChoices (choices p)
  /\ forall c, correctPosition cs' c = correctPosition (choices p) c.
Proof.
  assert (HP : Permutation (choices p) cs').
  { destruct m as [uuid|cid|k|random|cid v]; try contradiction;
      cbn [mutate] in Hemitted.
    - destruct p as [cs [d|]]; unfold drag_valid in Hdrag;
        cbn [choices draggedIndex] in *; [|discriminate].
      rewrite handleDrop_valid in Hemitted by exact Hdrag.
      inversion Hemitted as [E]. apply map_Some_inj in E. subst cs'.
      apply move_perm.
    - inversion Hemitted as [E]. apply map_Some_inj in E. subst cs'.
      apply handleShuffle_perm. }
  assert (E : sortedChoices cs' = sortedChoices (choices p)).
  { symmetry. apply (sort_by_perm_eq order_or_zero); [exact HP|].
    now rewrite order_keys. }
  split; [exact E|]. intros c. unfold correctPosition. now rewrite E.
Qed.

Lemma rearranging_keeps_sequence_witness :
  mutate (Drop 2) Demo.dragging
  = Some (map Some [Demo.piece2; Demo.piece3; Demo.piece1])
  /\ sortedChoices [Demo.piece2; Demo.piece3; Demo.piece1]
     = sortedChoices (choices Demo.dragging).
Proof.
  assert (Hemitted : mutate (Drop 2) Demo.dragging
                     = Some (map Some [Demo.piece2; Demo.piece3; Demo.piece1]))
    by reflexivity.
  split; [exact Hemitted|].
  refine (proj1 (rearranging_keeps_sequence Demo.dragging (Drop 2) _ _ _ I
                   Hemitted)).
  - cbn. repeat constructor; cbn; intuition discriminate.
  - cbn. repeat constructor.
Defined.

(** X10.  After a delete the correct sequence is the order in which the
    pieces are shown: in the list that [handleDeleteChoice] emits for
    choices with pairwise distinct identifiers, the badge of the piece at
    index [i] shows [i + 1], whatever the order fields were. *)
Theorem handleDeleteChoice_sequence (choiceId : string) (cs : list Choice.t)
    (i : nat) (c : Choice.t)
    (Hids : NoDup (map Choice.id cs))
    (Hi : nth_error (handleDeleteChoice choiceId cs) i = Some c) :
  sortedChoices (handleDeleteChoice choiceId cs)
  = handleDeleteChoice choiceId cs
  /\ correctPosition (handleDeleteChoice choiceId cs) c = (Z.of_nat i + 1)%Z.
Proof.
  assert (Hsorted : sortedChoices (handleDeleteChoice choiceId cs)
                    = handleDeleteChoice choiceId cs).
  { apply sort_by_fixed.
    assert (Hlt : StronglySorted
                    (fun a b => (order_or_zero a < order_or_zero b)%Z)
                    (handleDeleteChoice choiceId cs)).
    { apply sorted_map. rewrite order_keys.
      unfold handleDeleteChoice at 1. rewrite reindex_order.
      apply seq_sorted. }
    clear - Hlt. induction Hlt as [|a l Hs IH Hh]; constructor; [exact IH|].
    eapply Forall_impl; [|exact Hh]. intros b Hb. cbn in Hb.
    apply (by_key_before order_or_zero). lia. }
  split; [exact Hsorted|].
  unfold correctPosition, findIndex. rewrite Hsorted.
  rewrite (findIndex_from_nodup _ c 0 i); [reflexivity| |exact Hi].
  unfold handleDeleteChoice.
  change (map Choice.id ?l) with (QuizEditor.choice_ids l).
  rewrite reindex_ids. now apply choice_ids_filter.
Qed.

Lemma handleDeleteChoice_sequence_witness :
  nth_error (handleDeleteChoice "c2" (choices Demo.dragging)) 1
  = Some (Choice.with_order 1 Demo.piece3)
  /\ correctPosition (handleDeleteChoice "c2" (choices Demo.dragging))
                     (Choice.with_order 1 Demo.piece3) = 2%Z.
Proof.
  assert (Hi : nth_error (handleDeleteChoice "c2" (choices Demo.dragging)) 1
               = Some (Choice.with_order 1 Demo.piece3)) by reflexivity.
  split; [exact Hi|].
  refine (proj2 (handleDeleteChoice_sequence "c2" (choices Demo.dragging) 1 _
                   _ Hi)).
  cbn. repeat constructor; cbn; intuition discriminate.
Defined.

(** X11.  For a choice of the list, the badge number is between 1 and the
    number of pieces: the search in the sorted list finds the choice, so
    [findIndex] does not return -1. *)
Theorem correctPosition_range (cs : list Choice.t) (c : Choice.t)
    (Hc : In c cs) :
  (1 <= correctPosition cs c <= Z.of_nat (length cs))%Z.
Proof.
  unfold correctPosition, findIndex.
  assert (Hsorted : In c (sortedChoices cs))
    by (eapply Permutation_in; [apply sortedChoices_perm|exact Hc]).
  assert (Hlen : length (sortedChoices cs) = length cs)
    by (symmetry; apply Permutation_length, sortedChoices_perm).
  pose proof (findIndex_from_found
                (fun x => String.eqb (Choice.id x) (Choice.id c))
                (sortedChoices cs) 0
                (ex_intro _ c (conj Hsorted (String.eqb_refl _)))) as H.
  rewrite Hlen in H. lia.
Qed.

Lemma correctPosition_range_witness :
  In Demo.piece2 [Demo.piece1; Demo.piece2]
  /\ (1 <= correctPosition [Demo.piece1; Demo.piece2] Demo.piece2 <= 2)%Z.
Proof.
  assert (H : In Demo.piece2 [Demo.piece1; Demo.piece2])
    by (right; left; reflexivity).
  split; [exact H|].
  exact (correctPosition_range [Demo.piece1; Demo.piece2] Demo.piece2 H).
Defined.

End PuzzleEditorMore.

(* ================================================================= *)
(** ** QuizEditor: the question handlers and the main pane *)

Section QuestionHandlers.
Import QuizEditor.

Lemma quiz_with_own_questions (q : Quiz.t) :
  Quiz.with_questions (Quiz.questions q) q = q.
Proof. now destruct q. Qed.

Lemma setQuiz_same (w : World) (f : Quiz.t -> Quiz.t) :
  f (quiz w) = quiz w -> setQuiz f w = w.
Proof. intros E. unfold setQuiz. rewrite E. now destruct w. Qed.

Lemma replaced_id (q' x : Question.t) :
  Question.id (if String.eqb (Question.id x) (Question.id q') then q' else x)
  = Question.id x.
Proof.
  destruct (String.eqb_spec (Question.id x) (Question.id q')); congruence.
Qed.

Lemma handleQuestionUpdate_same_ids (updated : Question.t) (w : World) :
  map Question.id (Quiz.questions (quiz (handleQuestionUpdate updated w)))
  = map Question.id (Quiz.questions (quiz w)).
Proof.
  unfold handleQuestionUpdate, setQuiz.
  cbn [quiz Quiz.questions Quiz.with_questions].
  rewrite map_map. apply map_ext. intros x. apply replaced_id.
Qed.

(** X12.  [handleQuestionUpdate] neither adds nor removes a question and
    moves none: the identifiers of the questions are the same, in the same
    order, and the questions with another identifier than the new version's
    are untouched. *)
Theorem handleQuestionUpdate_keeps_list (updated : Question.t) (w : World) :
  map Question.id (Quiz.questions (quiz (handleQuestionUpdate updated w)))
  = map Question.id (Quiz.questions (quiz w))
  /\ filter (fun q => negb (String.eqb (Question.id q) (Question.id updated)))
            (Quiz.questions (quiz (handleQuestionUpdate updated w)))
     = filter (fun q => negb (String.eqb (Question.id q) (Question.id updated)))
              (Quiz.questions (quiz w)).
Proof.
  split; [apply handleQuestionUpdate_same_ids|].
  unfold handleQuestionUpdate, setQuiz.
  cbn [quiz Quiz.questions Quiz.with_questions].
  induction (Quiz.questions (quiz w)) as [|x l IH]; [reflexivity|].
  cbn [map filter].
  destruct (String.eqb (Question.id x) (Question.id updated)) eqn:E.
  - rewrite String.eqb_refl. cbn [negb]. exact IH.
  - rewrite E. cbn [negb]. now rewrite IH.
Qed.

(** X13.  An update for an identifier that no question of the quiz has is
    dropped: the editor is left as it is. *)
Theorem handleQuestionUpdate_unknown (updated : Question.t) (w : World)
    (Hunknown : ~ In (Question.id updated)
                     (map Question.id (Quiz.questions (quiz w)))) :
  handleQuestionUpdate updated w = w.
Proof.
  assert (Hmap : map (fun q => if String.eqb (Question.id q)
                                              (Question.id updated)
                               then updated else q)
                     (Quiz.questions (quiz w))
                 = Quiz.questions (quiz w)).
  { rewrite <- (map_id (Quiz.questions (quiz w))) at 2.
    apply map_ext_in. intros x Hx.
    destruct (String.eqb_spec (Question.id x) (Question.id updated)) as [E|];
      [|reflexivity].
    exfalso. apply Hunknown. rewrite <- E. now apply in_map. }
  unfold handleQuestionUpdate. apply setQuiz_same.
  rewrite Hmap. apply quiz_with_own_questions.
Qed.

Lemma handleQuestionUpdate_unknown_witness :
  ~ In (Question.id Demo.stranger)
       (map Question.id (Quiz.questions (quiz Demo.world1)))
  /\ handleQuestionUpdate Demo.stranger Demo.world1 = Demo.world1.
Proof.
  assert (H : ~ In (Question.id Demo.stranger)
                   (map Question.id (Quiz.questions (quiz Demo.world1))))
    by (cbn; intuition discriminate).
  split; [exact H|].
  exact (handleQuestionUpdate_unknown Demo.stranger Demo.world1 H).
Defined.

Lemma find_by_id (s : string) (l : list Question.t) :
  In s (map Question.id l) <->
  find (fun q => String.eqb (Question.id q) s) l <> None.
Proof.
  induction l as [|x l IH]; cbn [map find In].
  - split; [contradiction|congruence].
  - destruct (String.eqb_spec (Question.id x) s) as [E|E].
    + split; [discriminate|now left].
    + rewrite <- IH. split; [intros [H|H]; [contradiction|exact H]|now right].
Qed.

Lemma find_filter_other (s d : string) (l : list Question.t) :
  s <> d ->
  find (fun q => String.eqb (Question.id q) s)
       (filter (fun q => negb (String.eqb (Question.id q) d)) l)
  = find (fun q => String.eqb (Question.id q) s) l.
Proof.
  intros Hsd. induction l as [|x l IH]; [reflexivity|].
  cbn [filter find].
  destruct (String.eqb_spec (Question.id x) d) as [Ed|Ed]; cbn [negb find].
  - destruct (String.eqb_spec (Question.id x) s) as [Es|Es]; [congruence|exact IH].
  - now rewrite IH.
Qed.

(** The main pane shows the placeholder or a question of the quiz. *)
Lemma mainPane_found (w : World) :
  mainPane w <> editor None <->
  (truthy (selectedQuestionId w) = true ->
   In (or_empty (selectedQuestionId w))
      (map Question.id (Quiz.questions (quiz w)))).
Proof.
  unfold mainPane. destruct (truthy (selectedQuestionId w)).
  - rewrite find_by_id. split.
    + intros H _ E. apply H. now rewrite E.
    + intros H E. apply H; [reflexivity|]. now inversion E.
  - split; [discriminate|intros _; discriminate].
Qed.

(** X14.  Deleting the selected question empties the main pane; deleting
    another question leaves the main pane on the question it showed. *)
Theorem handleDeleteQuestion_pane (questionId : string) (w : World) :
  mainPane (handleDeleteQuestion questionId w)
  = match selectedQuestionId w with
    | Some s => if String.eqb s questionId then placeholder else mainPane w
    | None => mainPane w
    end.
Proof.
  unfold handleDeleteQuestion.
  destruct (selectedQuestionId w) as [s|] eqn:Es.
  - destruct (String.eqb_spec s questionId) as [E|E]; [reflexivity|].
    unfold mainPane, setQuiz.
    cbn [selectedQuestionId quiz Quiz.questions Quiz.with_questions].
    rewrite Es. cbn [or_empty].
    destruct (truthy (Some s)); [|reflexivity].
    now rewrite find_filter_other.
  - unfold mainPane, setQuiz. cbn [selectedQuestionId]. now rewrite Es.
Qed.

(** X15.  After [handleAddQuestion] with an identifier that is not empty
    and that no question has yet, the main pane shows the new question: it
    is empty, of the type of the quiz, and stands last in the list. *)
Theorem handleAddQuestion_pane (uuid : string) (w : World)
    (Hid : uuid <> "")
    (Hfresh : ~ In uuid (map Question.id (Quiz.questions (quiz w)))) :
  let newQuestion := Question.mk uuid (Quiz.type (quiz w)) "" None None [] in
  mainPane (handleAddQuestion uuid w) = editor (Some newQuestion)
  /\ Quiz.questions (quiz (handleAddQuestion uuid w))
     = Quiz.questions (quiz w) ++ [newQuestion].
Proof.
  intros newQuestion. split; [|reflexivity].
  unfold mainPane, handleAddQuestion, setSelectedQuestionId, setQuiz.
  cbn [selectedQuestionId quiz Quiz.questions Quiz.with_questions truthy
       or_empty Question.id].
  apply String.eqb_neq in Hid. rewrite Hid. cbn [negb]. f_equal.
  induction (Quiz.questions (quiz w)) as [|x l IH]; cbn [app find].
  - cbn [Question.id]. now rewrite String.eqb_refl.
  - destruct (String.eqb_spec (Question.id x) uuid) as [E|E].
    + exfalso. apply Hfresh. cbn [map]. now left.
    + apply IH. intros H. apply Hfresh. cbn [map]. now right.
Qed.

Lemma handleAddQuestion_pane_witness :
  mainPane (handleAddQuestion "q2" Demo.world1)
  = editor (Some (Question.mk "q2" "puzzle" "" None None [])).
Proof.
  refine (proj1 (handleAddQuestion_pane "q2" Demo.world1 _ _)).
  - discriminate.
  - cbn. intuition discriminate.
Defined.

End QuestionHandlers.

(* ================================================================= *)
(** ** QuizEditor: further properties of a save *)

Section SaveMore.
Import QuizEditor.
Variable env : Env.

(** Saving never touches the selection. *)
Lemma handleSave_selected (w : World) :
  selectedQuestionId (snd (handleSave env w)) = selectedQuestionId w.
Proof.
  destruct (truthy (userId env)) eqn:Hu;
    [destruct (truthy (accessToken env)) eqn:Ht|];
    try (rewrite handleSave_guard by auto; reflexivity).
  pose proof (handleSave_run env w Hu Ht) as H. cbn zeta in H.
  destruct (handleSave env w) as [[r|e] w'].
  - destruct H as (quizId & ids & _ & _ & _ & _ & ->). reflexivity.
  - destruct H as (pre & req & cur & _ & _ & _ & _ & ->). reflexivity.
Qed.

(** X16.  Past the guard on the credentials, every run of [handleSave],
    whether it returns or throws, ends with the saving flag off and no
    progress shown. *)
Theorem handleSave_resets_flags (w : World)
    (Hu : truthy (userId env) = true) (Ht : truthy (accessToken env) = true) :
  isSaving (snd (handleSave env w)) = false
  /\ saveProgress (snd (handleSave env w)) = None.
Proof.
  pose proof (handleSave_run env w Hu Ht) as H. cbn zeta in H.
  destruct (handleSave env w) as [[r|e] w'].
  - destruct H as (quizId & ids & _ & _ & _ & _ & ->). now split.
  - destruct H as (pre & req & cur & _ & _ & _ & _ & ->). now split.
Qed.

(** What a run that returns a quiz leaves behind. *)
Lemma handleSave_returns (w w' : World) (r : Quiz.t) :
  handleSave env w = (Val (Some r), w') ->
  saved w' = saved w ++ [r] /\ quiz w' = r
  /\ currentQuizId w' = Some (Quiz.id r).
Proof.
  intros Hrun.
  destruct (handleSave_past_guard env w) as [Hu Ht].
  { intros w0 E. rewrite E in Hrun. discriminate. }
  pose proof (handleSave_run env w Hu Ht) as H. cbn zeta in H.
  rewrite Hrun in H.
  destruct H as (quizId & ids & E & _ & _ & _ & ->).
  inversion E; subst r. repeat split.
Qed.

(** X17.  A run of [handleSave] that returns a quiz has called [onSave]
    once, with that quiz; the quiz is the one now in memory; local storage
    names it; the success toast is shown once; the quiz has the time of
    the save as its update time and the title, language and type it had. *)
Theorem handleSave_success (w w' : World) (r : Quiz.t)
    (Hrun : handleSave env w = (Val (Some r), w')) :
  saved w' = saved w ++ [r]
  /\ quiz w' = r
  /\ currentQuizId w' = Some (Quiz.id r)
  /\ toasts w' = toasts w ++ [success_toast]
  /\ Quiz.updatedAt r = Some (now env)
  /\ Quiz.title r = Quiz.title (quiz w)
  /\ Quiz.language r = Quiz.language (quiz w)
  /\ Quiz.type r = Quiz.type (quiz w).
Proof.
  destruct (handleSave_past_guard env w) as [Hu Ht].
  { intros w0 E. rewrite E in Hrun. discriminate. }
  pose proof (handleSave_run env w Hu Ht) as H. cbn zeta in H.
  rewrite Hrun in H.
  destruct H as (quizId & ids & E & _ & _ & _ & ->).
  inversion E; subst r. repeat split.
Qed.

(** X18.  A run of [handleSave] that throws leaves the quiz in memory as
    it was and does not call [onSave]; the last line on the console is the
    error it throws. *)
Theorem handleSave_failure (w w' : World) (e : Exn)
    (Hrun : handleSave env w = (Throw e, w')) :
  quiz w' = quiz w
  /\ saved w' = saved w
  /\ exists logs,
       console w'
       = console w ++ logs ++ [log_error "Error saving quiz:" (Some e)].
Proof.
  destruct (handleSave_past_guard env w) as [Hu Ht].
  { intros w0 E. rewrite E in Hrun. discriminate. }
  pose proof (handleSave_run env w Hu Ht) as H. cbn zeta in H.
  rewrite Hrun in H.
  destruct H as (pre & req & cur & _ & _ & _ & _ & ->).
  split; [reflexivity|]. split; [reflexivity|].
  eexists. reflexivity.
Qed.

(** X19.  Replace by delete and recreate: after a save that returned a
    quiz with a non-empty identifier, the next save starts with the delete
    of that quiz and goes on with the creation of a new one. *)
Theorem handleSave_twice (w w1 : World) (r : Quiz.t)
    (Hrun : handleSave env w = (Val (Some r), w1))
    (Hid : Quiz.id r <> "") :
  exists rest,
    requests (snd (handleSave env w1))
    = requests w1 ++ deleteRequest (token env) (Quiz.id r)
                  :: quizRequest (token env) (user env) r :: rest.
Proof.
  destruct (handleSave_past_guard env w) as [Hu Ht].
  { intros w0 E. rewrite E in Hrun. discriminate. }
  pose proof (handleSave_run env w Hu Ht) as H. cbn zeta in H.
  rewrite Hrun in H.
  destruct H as (quizId & ids & E & _ & _ & _ & Hw1).
  inversion E; subst r. cbn [Quiz.id updatedQuiz] in Hid.
  assert (Hcur : currentQuizId w1 = Some quizId) by now rewrite Hw1.
  assert (Hquiz : quiz w1 = updatedQuiz env (quiz w) quizId) by now rewrite Hw1.
  assert (Htruthy : truthy (Some quizId) = true).
  { cbn. apply negb_true_iff, String.eqb_neq, Hid. }
  pose proof (handleSave_run env w1 Hu Ht) as H. cbn zeta in H.
  rewrite Hcur, Hquiz in H. unfold delete_plan in H. rewrite Htruthy in H.
  cbn [or_empty Quiz.id updatedQuiz].
  destruct (handleSave env w1) as [[r'|e] w2].
  - destruct H as (quizId' & ids' & _ & _ & _ & _ & ->).
    unfold save_plan, delete_plan. rewrite Htruthy.
    cbn [snd requests app or_empty]. eexists. reflexivity.
  - destruct H as (pre & req & cur & _ & _ & (post & Hpost) & _ & ->).
    cbn [snd requests app]. rewrite Hpost. eexists. reflexivity.
Qed.

Lemma question_plans_length (token quizId : string) (qs : list Question.t) :
  forall ids,
    length ids = length qs ->
    length (concat (map (question_plan token quizId) (combine qs ids)))
    = list_sum
        (map (fun q =>
                1 + length (match Question.imageUrls q with
                            | Some urls => urls | None => [] end)
                  + length (Question.choices q))
             qs).
Proof.
  induction qs as [|q qs IH]; intros [|i ids] Hlen; try discriminate;
    [reflexivity|].
  cbn [combine map concat list_sum question_plan].
  rewrite length_app. cbn [length]. rewrite length_app, !length_map.
  rewrite IH by (cbn [length] in Hlen; now inversion Hlen).
  unfold list_sum. cbn [fold_right]. lia.
Qed.

(** X20.  A run of [handleSave] that returns a quiz has sent, besides the
    delete if there was a quiz to delete, one request for the quiz and, for
    each question, one for the question, one for each of its images and one
    for each of its choices: no record is sent twice and none is left
    out. *)
Theorem handleSave_request_count (w w' : World) (r : Quiz.t)
    (Hrun : handleSave env w = (Val (Some r), w')) :
  length (requests w')
  = length (requests w)
    + (if truthy (currentQuizId w) then 1 else 0)
    + creates_count (Quiz.questions (quiz w)).
Proof.
  destruct (handleSave_past_guard env w) as [Hu Ht].
  { intros w0 E. rewrite E in Hrun. discriminate. }
  pose proof (handleSave_run env w Hu Ht) as H. cbn zeta in H.
  rewrite Hrun in H.
  destruct H as (quizId & ids & _ & _ & Hlen & _ & ->).
  cbn [requests]. unfold save_plan, delete_plan, creates_count.
  rewrite !length_app. cbn [length].
  rewrite (question_plans_length _ _ _ _ Hlen).
  destruct (truthy (currentQuizId w)); cbn [length]; lia.
Qed.

(** Past the guard, [handleSave] returns or throws what its [try] block
    does. *)
Lemma handleSave_outcome (w : World) :
  truthy (userId env) = true -> truthy (accessToken env) = true ->
  fst (handleSave env w) = fst (savePipeline env (quiz w) (setIsSaving true w)).
Proof.
  intros Hu Ht. unfold handleSave. rewrite Hu, Ht; cbn [negb orb].
  unfold bind at 1, modify at 1, try_finally, try_catch.
  destruct (savePipeline env (quiz w) (setIsSaving true w)) as [[r|e] w1];
    reflexivity.
Qed.

(** How the [try] block ends, by the answer to the creation of the quiz
    and, when that went through, by how the loop over the questions
    ends. *)
Lemma savePipeline_cases (q : Quiz.t) (w : World) :
  let history := requests w ++ delete_plan (token env) (currentQuizId w) in
  let qr := quizRequest (token env) (user env) q in
  match server env history qr with
  | Rejected => fst (savePipeline env q w) = Throw FetchRejected
  | Resolved resp =>
      if ok resp then
        match json resp with
        | Some j =>
            exists w2,
              fst (savePipeline env q w)
              = match fst (saveQuestions env (quiz_id j) (Quiz.questions q) 0
                             (length (Quiz.questions q)) w2) with
                | Val _ => Val (Some (updatedQuiz env q (quiz_id j)))
                | Throw e => Throw e
                end
        | None => fst (savePipeline env q w) = Throw JsonRejected
        end
      else fst (savePipeline env q w) = Throw (JsError "Failed to save quiz")
  end.
Proof.
  intros history qr.
  destruct (savePipeline env q w) as [o w'] eqn:Hrun. cbn [fst].
  revert Hrun. unfold savePipeline.
  unfold bind at 1 2. unfold progress at 1, modify at 1.
  rewrite deleteExisting_run.
  unfold bind at 1 2. unfold progress at 1, modify at 1, fetch.
  cbn [requests currentQuizId setSaveProgress].
  fold history. fold qr.
  destruct (server env history qr) as [|resp];
    [intros Hrun; now inversion Hrun|].
  unfold bind at 1. destruct (ok resp); cbn [negb];
    [|intros Hrun; now inversion Hrun].
  cbn [ret]. unfold bind at 1, parse.
  destruct (json resp) as [j|]; [|intros Hrun; now inversion Hrun].
  cbn [ret]. unfold bind at 1 2. unfold modify at 1, progress at 1, modify at 1.
  unfold bind at 1.
  match goal with
  | |- context [saveQuestions env ?a ?b ?c ?d ?w2] =>
      intros Hrun; exists w2;
      destruct (saveQuestions env a b c d w2) as [[[]|e] w3]
  end; cbn [fst]; now inversion Hrun.
Qed.

(** X21.  A quiz without questions is saved as soon as its own creation
    goes through: the run returns the quiz with the identifier the backend
    assigned, and nothing is sent after the creation of the quiz. *)
Theorem handleSave_no_questions (w : World) (quizId : string)
    (Hu : truthy (userId env) = true) (Ht : truthy (accessToken env) = true)
    (Hempty : Quiz.questions (quiz w) = [])
    (Hcreated : assigns (server env)
                  (requests w ++ delete_plan (token env) (currentQuizId w))
                  (quizRequest (token env) (user env) (quiz w))
                  quiz_id quizId) :
  fst (handleSave env w) = Val (Some (updatedQuiz env (quiz w) quizId))
  /\ requests (snd (handleSave env w))
     = requests w ++ delete_plan (token env) (currentQuizId w)
         ++ [quizRequest (token env) (user env) (quiz w)].
Proof.
  assert (Hfst : fst (handleSave env w)
                 = Val (Some (updatedQuiz env (quiz w) quizId))).
  { rewrite handleSave_outcome by assumption.
    pose proof (savePipeline_cases (quiz w) (setIsSaving true w)) as H.
    cbn zeta in H. cbn [requests currentQuizId setIsSaving] in H.
    destruct Hcreated as (resp & j & E & Eok & Ej & Eid).
    rewrite E, Eok, Ej, Hempty in H. destruct H as (w2 & H).
    rewrite H. cbn. now rewrite Eid. }
  split; [exact Hfst|].
  pose proof (handleSave_run env w Hu Ht) as H. cbn zeta in H.
  destruct (handleSave env w) as [[r|e] w']; [|discriminate].
  destruct H as (quizId' & ids & _ & _ & Hlen & _ & ->).
  rewrite Hempty in Hlen. destruct ids; [|discriminate].
  cbn [snd requests]. unfold save_plan. rewrite Hempty. reflexivity.
Qed.

(** The loops over the images and over the choices throw nothing but the
    rejection of a [fetch]. *)
Lemma saveImages_throws (questionId : string) (imageUrls : list string) :
  forall j total w e w',
    saveImages env questionId imageUrls j total w = (Throw e, w') ->
    e = FetchRejected.
Proof.
  induction imageUrls as [|u rest IH]; intros j total w e w';
    cbn [saveImages]; [discriminate|].
  unfold bind at 1 2. unfold progress, modify, fetch.
  destruct (server env _ _) as [|resp]; intros H;
    [now inversion H|exact (IH _ _ _ _ _ H)].
Qed.

Lemma saveChoices_throws (questionId : string) (choices : list Choice.t) :
  forall k total w e w',
    saveChoices env questionId choices k total w = (Throw e, w') ->
    e = FetchRejected.
Proof.
  induction choices as [|c rest IH]; intros k total w e w';
    cbn [saveChoices]; [discriminate|].
  unfold bind at 1 2. unfold progress, modify, fetch.
  destruct (server env _ _) as [|resp]; intros H;
    [now inversion H|exact (IH _ _ _ _ _ H)].
Qed.

(** An [Error] that the loop over the questions creates names a question
    whose creation, sent last, was answered with a status that is not
    ok. *)
Lemma saveQuestions_own_error (quizId : string) (questions : list Question.t) :
  forall i total w message w',
    saveQuestions env quizId questions i total w
    = (Throw (JsError message), w') ->
    exists q pre resp,
      In q questions
      /\ message = ("Failed to save question: " ++ Question.id q)%string
      /\ requests w'
         = requests w ++ pre ++ [questionRequest (token env) quizId q]
      /\ server env (requests w ++ pre)
                (questionRequest (token env) quizId q) = Resolved resp
      /\ ok resp = false.
Proof.
  induction questions as [|q rest IH]; intros i total w message w';
    cbn [saveQuestions]; [discriminate|].
  unfold bind at 1 2. unfold progress at 1, modify at 1, fetch.
  cbn [requests setSaveProgress].
  set (qreq := questionRequest (token env) quizId q).
  destruct (server env (requests w) qreq) as [|resp] eqn:E; [discriminate|].
  unfold bind at 1. destruct (ok resp) eqn:Eok; cbn [negb].
  2:{ intros H; inversion H; subst. exists q, [], resp.
      cbn [requests sent setSaveProgress app]. rewrite app_nil_r.
      split; [now left|]. auto. }
  cbn [ret]. unfold bind at 1, parse.
  destruct (json resp) as [j|]; [|discriminate].
  cbn [ret]. unfold bind at 1.
  match goal with
  | |- context [saveImagesOf env ?a ?b ?W] =>
      destruct (saveImagesOf_run env a b W) as (rs1 & sp1 & Hw1 & _ & _);
      destruct (saveImagesOf env a b W) as [[[]|e1] w1] eqn:Eimg
  end.
  2:{ intros H; inversion H; subst e1. exfalso.
      unfold saveImagesOf in Eimg.
      destruct (Question.imageUrls q) as [[|u urls]|]; try discriminate.
      unfold bind, progress, modify in Eimg.
      apply saveImages_throws in Eimg. discriminate. }
  cbn [snd] in Hw1. subst w1.
  unfold bind at 1 2. unfold progress at 1, modify at 1.
  match goal with
  | |- context [saveChoices env ?a ?b ?c ?d ?W] =>
      destruct (saveChoices_run env a b c d W) as (rs2 & sp2 & Hw2 & _ & _);
      destruct (saveChoices env a b c d W) as [[[]|e2] w2] eqn:Ech
  end.
  2:{ intros H; inversion H; subst e2. exfalso.
      apply saveChoices_throws in Ech. discriminate. }
  cbn [snd] in Hw2. subst w2.
  intros H. apply IH in H as (q0 & pre & resp0 & Hin & Hm & Hreq & Hsrv & Hok).
  cbn [requests after_requests setSaveProgress sent] in Hreq, Hsrv.
  exists q0, (qreq :: rs1 ++ rs2 ++ pre), resp0.
  split; [now right|]. split; [exact Hm|].
  split; [rewrite Hreq|split; [rewrite <- Hsrv; f_equal|exact Hok]];
    repeat progress (cbn [app]; rewrite <- ?app_assoc); reflexivity.
Qed.

Lemma savePipeline_own_error (q : Quiz.t) (w w' : World) (message : string) :
  savePipeline env q w = (Throw (JsError message), w') ->
  exists pre req resp,
    requests w' = requests w ++ pre ++ [req]
    /\ server env (requests w ++ pre) req = Resolved resp
    /\ ok resp = false
    /\ reports (token env) (user env) q message req.
Proof.
  unfold savePipeline.
  unfold bind at 1 2. unfold progress at 1, modify at 1.
  rewrite deleteExisting_run.
  unfold bind at 1 2. unfold progress at 1, modify at 1, fetch.
  cbn [requests currentQuizId setSaveProgress].
  set (dp := delete_plan (token env) (currentQuizId w)).
  set (qr := quizRequest (token env) (user env) q).
  destruct (server env (requests w ++ dp) qr) as [|resp] eqn:E;
    [discriminate|].
  unfold bind at 1. destruct (ok resp) eqn:Eok; cbn [negb].
  2:{ intros H; inversion H; subst. exists dp, qr, resp.
      cbn [requests sent setSaveProgress].
      split; [now rewrite <- app_assoc|].
      split; [exact E|]. split; [exact Eok|]. now left. }
  cbn [ret]. unfold bind at 1, parse.
  destruct (json resp) as [j|]; [|discriminate].
  cbn [ret]. unfold bind at 1 2. unfold modify at 1, progress at 1, modify at 1.
  unfold bind at 1.
  match goal with
  | |- context [saveQuestions env ?a ?b ?c ?d ?w2] =>
      destruct (saveQuestions env a b c d w2) as [[[]|e] w3] eqn:Eq
  end.
  - unfold bind, modify, ret. discriminate.
  - intros H; inversion H; subst e w3.
    apply saveQuestions_own_error in Eq
      as (q0 & pre & resp0 & Hin & Hm & Hreq & Hsrv & Hok).
    cbn [requests setSaveProgress setItem_currentQuizId sent] in Hreq, Hsrv.
    exists (dp ++ qr :: pre), (questionRequest (token env) (quiz_id j) q0),
           resp0.
    split; [rewrite Hreq|split; [rewrite <- Hsrv; f_equal|]];
      try (repeat progress (cbn [app]; rewrite <- ?app_assoc); reflexivity).
    split; [exact Hok|]. right. now exists q0, (quiz_id j).
Qed.

(** X22.  An [Error] that [handleSave] creates itself and throws is about
    the creation it sent last, which the backend answered with a status
    that is not ok: it says "Failed to save quiz" after the creation of the
    quiz, and "Failed to save question: " with the identifier that the
    editor gave the question after the creation of a question of the
    quiz.  (What [handleSave] throws without creating it, as the rejection
    of a [fetch] or of the reading of a body, is passed on as it is.) *)
Theorem handleSave_own_errors (w w' : World) (message : string)
    (Hrun : handleSave env w = (Throw (JsError message), w')) :
  exists pre req resp,
    requests w' = requests w ++ pre ++ [req]
    /\ server env (requests w ++ pre) req = Resolved resp
    /\ ok resp = false
    /\ reports (token env) (user env) (quiz w) message req.
Proof.
  destruct (handleSave_past_guard env w) as [Hu Ht].
  { intros w0 E. rewrite E in Hrun. discriminate. }
  revert Hrun. unfold handleSave. rewrite Hu, Ht; cbn [negb orb].
  unfold bind at 1, modify at 1, try_finally, try_catch.
  destruct (savePipeline env (quiz w) (setIsSaving true w))
    as [[r|e] w1] eqn:Ep; [discriminate|].
  unfold bind, modify, throw. intros H; inversion H; subst e w'.
  apply savePipeline_own_error in Ep as (pre & req & resp & Hreq & Hrest).
  exists pre, req, resp.
  cbn [requests setSaveProgress setIsSaving toasted logged] in *.
  split; [exact Hreq|exact Hrest].
Qed.

(** The loops return when every creation is answered. *)
Lemma saveImages_answered (questionId : string) (imageUrls : list string) :
  answers_creates (server env) ->
  forall j total w, fst (saveImages env questionId imageUrls j total w) = Val tt.
Proof.
  intros Hsrv. induction imageUrls as [|u rest IH]; intros j total w;
    cbn [saveImages]; [reflexivity|].
  unfold bind at 1 2. unfold progress, modify, fetch.
  match goal with
  | |- context [server env ?h ?r] =>
      destruct (Hsrv h r eq_refl) as (resp & E & _); rewrite E
  end.
  apply IH.
Qed.

Lemma saveChoices_answered (questionId : string) (choices : list Choice.t) :
  answers_creates (server env) ->
  forall k total w, fst (saveChoices env questionId choices k total w) = Val tt.
Proof.
  intros Hsrv. induction choices as [|c rest IH]; intros k total w;
    cbn [saveChoices]; [reflexivity|].
  unfold bind at 1 2. unfold progress, modify, fetch.
  match goal with
  | |- context [server env ?h ?r] =>
      destruct (Hsrv h r eq_refl) as (resp & E & _); rewrite E
  end.
  apply IH.
Qed.

Lemma saveQuestions_answered (quizId : string) (questions : list Question.t) :
  answers_creates (server env) ->
  forall i total w,
    fst (saveQuestions env quizId questions i total w) = Val tt.
Proof.
  intros Hsrv. induction questions as [|q rest IH]; intros i total w;
    cbn [saveQuestions]; [reflexivity|].
  unfold bind at 1 2. unfold progress at 1, modify at 1, fetch.
  match goal with
  | |- context [server env ?h ?r] =>
      destruct (Hsrv h r eq_refl) as (resp & E & Hc); rewrite E
  end.
  destruct (Hc eq_refl) as [Eok Ej].
  unfold bind at 1. rewrite Eok. cbn [negb ret].
  unfold bind at 1, parse. destruct (json resp) as [j|]; [|congruence].
  cbn [ret]. unfold bind at 1.
  destruct (saveImagesOf env (question_id j) q _) as [o1 w1] eqn:Eimg.
  assert (Ho1 : o1 = Val tt).
  { change o1 with (fst (o1, w1)). rewrite <- Eimg. unfold saveImagesOf.
    destruct (Question.imageUrls q) as [[|u urls]|]; try reflexivity.
    unfold bind, progress, modify. now apply saveImages_answered. }
  subst o1. unfold bind at 1 2. unfold progress at 1, modify at 1.
  destruct (saveChoices env (question_id j) (Question.choices q) _ _ _)
    as [o2 w2] eqn:Ech.
  assert (Ho2 : o2 = Val tt).
  { change o2 with (fst (o2, w2)). rewrite <- Ech.
    now apply saveChoices_answered. }
  subst o2. apply IH.
Qed.

(** X23.  [handleSave] looks at the answers to the creation of the quiz
    and of the questions only.  With a backend that answers every creation
    and answers these two kinds with an ok status and a body, the run
    returns the quiz, whatever the status of the answers to the creation
    of the images and of the choices and whatever the answer to the
    delete. *)
Theorem handleSave_unchecked_answers (w : World)
    (Hu : truthy (userId env) = true) (Ht : truthy (accessToken env) = true)
    (Hsrv : answers_creates (server env)) :
  exists r, fst (handleSave env w) = Val (Some r).
Proof.
  rewrite handleSave_outcome by assumption.
  pose proof (savePipeline_cases (quiz w) (setIsSaving true w)) as H.
  cbn zeta in H.
  match type of H with
  | context [server env ?h ?r] =>
      destruct (Hsrv h r eq_refl) as (resp & E & Hc); rewrite E in H
  end.
  destruct (Hc eq_refl) as [Eok Ej]. rewrite Eok in H.
  destruct (json resp) as [j|]; [|congruence].
  destruct H as (w2 & H). rewrite H.
  rewrite saveQuestions_answered by exact Hsrv.
  eexists. reflexivity.
Qed.

(** X24.  When the creation of the quiz does not go through, local storage
    is left as it was: it still names the quiz whose delete was sent at the
    start of the run, and the next save will send that delete again. *)
Theorem quiz_create_failure_keeps_storage (w : World)
    (Hu : truthy (userId env) = true) (Ht : truthy (accessToken env) = true)
    (Hfailed : failed (server env
                         (requests w
                            ++ delete_plan (token env) (currentQuizId w))
                         (quizRequest (token env) (user env) (quiz w)))
               = true) :
  currentQuizId (snd (handleSave env w)) = currentQuizId w
  /\ requests (snd (handleSave env w))
     = requests w ++ delete_plan (token env) (currentQuizId w)
         ++ [quizRequest (token env) (user env) (quiz w)]
  /\ exists e, fst (handleSave env w) = Throw e.
Proof.
  destruct (quiz_create_failure_aborts env w Hu Ht Hfailed)
    as (e & Hfst & Hreq & _).
  split; [|split; [exact Hreq|now exists e]].
  pose proof (handleSave_run env w Hu Ht) as H. cbn zeta in H.
  destruct (handleSave env w) as [[r|e'] w']; [discriminate|].
  destruct H as (pre & req & cur & _ & _ & _ & Hcur & ->).
  cbn [snd currentQuizId].
  destruct Hcur as [Hcur|(quizId & (resp & j & E & Eok & Ej & _) & _)];
    [exact Hcur|].
  rewrite E in Hfailed. cbn in Hfailed. rewrite Eok, Ej in Hfailed.
  discriminate.
Qed.

End SaveMore.


(* ================================================================= *)
(** ** The shell: leaving the editor *)

Section ShellFacts.
Import QuizEditor.
Variable env : Env.

(** X25.  "Save and continue" without credentials leaves the editor
    although nothing was saved: [handleSave] returns without a word, so the
    handler clears local storage, closes the modal and navigates to the
    dashboard; no request is sent, [onSave] is not called and no toast is
    shown. *)
Theorem handleSaveAndContinue_signed_out (s : Shell)
    (Hauth : truthy (userId env) = false \/ truthy (accessToken env) = false) :
  navigated (handleSaveAndContinue env s) = navigated s ++ [("/", None)]
  /\ showUnsavedChangesModal (handleSaveAndContinue env s) = false
  /\ currentQuizId (world (handleSaveAndContinue env s)) = None
  /\ requests (world (handleSaveAndContinue env s)) = requests (world s)
  /\ saved (world (handleSaveAndContinue env s)) = saved (world s)
  /\ toasts (world (handleSaveAndContinue env s)) = toasts (world s).
Proof.
  unfold handleSaveAndContinue.
  rewrite (handleSave_guard env (world s) Hauth). cbn. repeat split.
Qed.

(** X26.  When the save throws, "save and continue" stays in the editor:
    it does not navigate, leaves the modal and local storage as the save
    left them, and the user is shown two error toasts, the one of
    [handleSave] and then its own. *)
Theorem handleSaveAndContinue_failure (s : Shell) (e : Exn) (w' : World)
    (Hrun : handleSave env (world s) = (Throw e, w')) :
  navigated (handleSaveAndContinue env s) = navigated s
  /\ showUnsavedChangesModal (handleSaveAndContinue env s)
     = showUnsavedChangesModal s
  /\ currentQuizId (world (handleSaveAndContinue env s)) = currentQuizId w'
  /\ toasts (world (handleSaveAndContinue env s))
     = toasts (world s) ++ [error_toast; save_and_continue_toast]
  /\ exists logs,
       console (world (handleSaveAndContinue env s))
       = console (world s) ++ logs
           ++ [log_error "Error saving quiz:" (Some e);
               log_error "Error saving quiz:" (Some e)].
Proof.
  destruct (handleSave_past_guard env (world s)) as [Hu Ht].
  { intros w0 E. rewrite E in Hrun. discriminate. }
  pose proof (handleSave_run env (world s) Hu Ht) as H. cbn zeta in H.
  unfold handleSaveAndContinue. rewrite Hrun in *.
  destruct H as (pre & req & cur & _ & _ & _ & _ & ->).
  cbn. repeat split.
  - now rewrite <- app_assoc.
  - exists (delete_step_log (server env) (token env) (requests (world s))
                            (currentQuizId (world s))).
    now rewrite <- !app_assoc.
Qed.

(** X27.  When the save returns, "save and continue" navigates to the
    dashboard with the modal closed and local storage cleared: the quiz
    that was just created is no longer named there, though it was handed
    to [onSave]. *)
Theorem handleSaveAndContinue_success (s : Shell) (r : Quiz.t) (w' : World)
    (Hrun : handleSave env (world s) = (Val (Some r), w')) :
  navigated (handleSaveAndContinue env s) = navigated s ++ [("/", None)]
  /\ showUnsavedChangesModal (handleSaveAndContinue env s) = false
  /\ currentQuizId (world (handleSaveAndContinue env s)) = None
  /\ saved (world (handleSaveAndContinue env s)) = saved (world s) ++ [r]
  /\ quiz (world (handleSaveAndContinue env s)) = r.
Proof.
  destruct (handleSave_returns env (world s) w' r Hrun)
    as (Hsaved & Hquiz & _).
  unfold handleSaveAndContinue. rewrite Hrun. cbn. auto.
Qed.

(** X28.  After a save that returned a quiz with a non-empty identifier,
    "back to dashboard" leaves at once: it clears local storage and
    navigates to the dashboard without opening the unsaved-changes
    modal. *)
Theorem handleBackToDashboard_after_save (s : Shell) (r : Quiz.t)
    (w' : World)
    (Hrun : handleSave env (world s) = (Val (Some r), w'))
    (Hid : Quiz.id r <> "") :
  handleBackToDashboard
    (mkShell w' (showSettings s) (showUnsavedChangesModal s) (navigated s))
  = mkShell (removeItem_currentQuizId w') (showSettings s)
            (showUnsavedChangesModal s) (navigated s ++ [("/", None)]).
Proof.
  destruct (handleSave_returns env (world s) w' r Hrun)
    as (_ & _ & Hcur).
  unfold handleBackToDashboard. cbn [world]. rewrite Hcur.
  cbn [truthy]. apply String.eqb_neq in Hid. now rewrite Hid.
Qed.

End ShellFacts.

(* ================================================================= *)
(** ** The main pane, and saves that overlap the editing *)

Section MainPane.
Import QuizEditor.

Lemma mainPane_same_edits (w w' : World) :
  same_edits w w' -> mainPane w' = mainPane w.
Proof.
  intros [Hquiz Hsel]. unfold mainPane. now rewrite Hquiz, Hsel.
Qed.

(** The handlers keep a pane that shows the placeholder or a question,
    provided the list or quiz handed in from outside still holds every
    identifier of a question. *)
Lemma run_op_pane (w : World) (op : Op) :
  keeps_question_ids (mkSession w []) (Handler op) ->
  mainPane w <> editor None ->
  mainPane (run_op op w) <> editor None.
Proof.
  intros Hkeeps Hpane.
  apply mainPane_found.
  pose proof (proj1 (mainPane_found w) Hpane) as Hsel. clear Hpane.
  destruct op as [uuid|questionId|reordered|updated|updated];
    cbn [run_op keeps_question_ids shown] in *.
  - intros _. unfold handleAddQuestion, setSelectedQuestionId, setQuiz.
    cbn [selectedQuestionId quiz Quiz.questions Quiz.with_questions or_empty
         Question.id].
    rewrite map_app. apply in_or_app. right. now left.
  - unfold handleDeleteQuestion.
    assert (Hkept : forall s, s <> questionId ->
              In s (map Question.id (Quiz.questions (quiz w))) ->
              In s (map Question.id
                      (filter (fun q => negb (String.eqb (Question.id q)
                                                         questionId))
                              (Quiz.questions (quiz w))))).
    { intros s Hs Hin. apply in_map_iff in Hin as (q & Hq & Hin).
      apply in_map_iff. exists q. split; [exact Hq|].
      apply filter_In. split; [exact Hin|].
      apply negb_true_iff, String.eqb_neq. congruence. }
    destruct (selectedQuestionId w) as [s|] eqn:Es.
    + destruct (String.eqb_spec s questionId) as [E|E]; [discriminate|].
      unfold setQuiz.
      cbn [selectedQuestionId quiz Quiz.questions Quiz.with_questions].
      rewrite Es in *. intros Htruthy. cbn [or_empty] in *. auto.
    + unfold setQuiz. cbn [selectedQuestionId]. rewrite Es. discriminate.
  - unfold handleReorderQuestions, setQuiz.
    cbn [selectedQuestionId quiz Quiz.questions Quiz.with_questions].
    intros Htruthy. apply Hkeeps. auto.
  - intros Htruthy.
    rewrite handleQuestionUpdate_same_ids.
    exact (Hsel Htruthy).
  - unfold handleQuizUpdate, setQuiz. cbn [selectedQuestionId quiz].
    intros Htruthy. apply Hkeeps. auto.
Qed.

(** X29.  When the main pane shows the placeholder or a question of the
    quiz, it does so again after every handler that changes the quiz or
    the selection (add, delete and update of a question, reorder, update
    of the quiz), after the start of a save and after a save that throws;
    after a save that returns it does when the quiz that the save closed
    over holds every identifier of a question that the quiz shown has.
    For a reorder and an update of the quiz the same is asked of the value
    handed in from outside. *)
Theorem mainPane_keeps_question (s s' : Session) (ev : Event)
    (Hstep : session_step s ev s')
    (Hkeeps : keeps_question_ids s ev)
    (Hpane : mainPane (shown s) <> editor None) :
  mainPane (shown s') <> editor None.
Proof.
  destruct Hstep as [s op | s w' Hsame
                    | s env n quizId closed w' Hnth Hquiz Hsel
                    | s n closed w' _ Hsame];
    cbn [shown].
  - apply run_op_pane; [|exact Hpane].
    destruct op; exact Hkeeps.
  - now rewrite (mainPane_same_edits _ _ Hsame).
  - apply mainPane_found.
    pose proof (proj1 (mainPane_found (shown s)) Hpane) as Hfound.
    cbn [keeps_question_ids] in Hkeeps. rewrite Hnth in Hkeeps.
    rewrite Hsel, Hquiz. cbn [updatedQuiz Quiz.questions].
    intros Htruthy. apply Hkeeps. auto.
  - now rewrite (mainPane_same_edits _ _ Hsame).
Qed.

(** X30.  A question added while a save is under way is lost when the save
    returns: the save puts back the quiz it closed over, which does not
    have the question, while the selection stays on it, so the main pane
    opens the QuestionEditor on [undefined]. *)
Theorem add_during_save_is_lost (s s1 s2 s3 : Session) (uuid : string)
    (env : Env) (quizId : string)
    (Hstart : session_step s SaveStarts s1)
    (Hadd : session_step s1 (Handler (AddQuestion uuid)) s2)
    (Hreturn : session_step s2 (SaveReturns env (length (closed_over s))
                                            quizId) s3)
    (Hid : uuid <> "")
    (Hfresh : ~ In uuid (map Question.id (Quiz.questions (quiz (shown s))))) :
  Quiz.questions (quiz (shown s2))
  = Quiz.questions (quiz (shown s))
      ++ [Question.mk uuid (Quiz.type (quiz (shown s))) "" None None []]
  /\ Quiz.questions (quiz (shown s3)) = Quiz.questions (quiz (shown s))
  /\ selectedQuestionId (shown s3) = Some uuid
  /\ mainPane (shown s3) = editor None.
Proof.
  inversion Hstart as [|s0 w1 [Hquiz1 Hsel1]| |]; subst.
  inversion Hadd; subst.
  inversion Hreturn as [| |s0 env0 n0 quizId0 closed w3 Hnth Hquiz3 Hsel3|];
    subst.
  cbn [shown closed_over] in *.
  rewrite nth_error_app2, Nat.sub_diag in Hnth by apply Nat.le_refl.
  cbn [nth_error] in Hnth. injection Hnth as <-.
  assert (Hquestions : Quiz.questions (quiz w3)
                       = Quiz.questions (quiz (shown s)))
    by now rewrite Hquiz3.
  assert (Hselected : selectedQuestionId w3 = Some uuid)
    by (rewrite Hsel3; reflexivity).
  split.
  { cbn [run_op]. unfold handleAddQuestion, setSelectedQuestionId, setQuiz.
    cbn [quiz Quiz.questions Quiz.with_questions]. now rewrite Hquiz1. }
  split; [exact Hquestions|]. split; [exact Hselected|].
  unfold mainPane. rewrite Hselected, Hquestions.
  assert (Htruthy : truthy (Some uuid) = true)
    by (cbn [truthy]; now apply negb_true_iff, String.eqb_neq).
  rewrite Htruthy. cbn [or_empty]. f_equal.
  destruct (find _ _) as [q|] eqn:E; [|reflexivity].
  exfalso. apply Hfresh. apply find_by_id. now rewrite E.
Qed.

(** The end of a pending save that no other save overlaps is
    [handleSave] run on the quiz it closed over, in the world that the
    handlers have left, with the quiz of that world kept unless the run
    returns: this is a step of the session, and without a handler in
    between it is the run of [handleSave] itself. *)
Lemma resume_is_a_step (env : Env) (s : Session) (n : nat)
    (closed : Quiz.t)
    (Hnth : nth_error (closed_over s) n = Some closed) :
  let res := resume env closed (shown s) in
  session_step s
    (match fst res with
     | Val (Some saved) => SaveReturns env n (Quiz.id saved)
     | _ => SaveEnds n
     end)
    (mkSession (snd res) (remove_nth n (closed_over s)))
  /\ (closed = quiz (shown s) -> res = handleSave env (shown s)).
Proof.
  cbv zeta. unfold resume.
  assert (Hback : forall w, setQuiz (fun _ => quiz w) w = w)
    by (intros w; now destruct w).
  destruct (truthy (userId env)) eqn:Hu;
    [destruct (truthy (accessToken env)) eqn:Ht|].
  2,3: rewrite !handleSave_guard by auto; cbn [fst snd]; split;
       [apply (session_save_ends s n closed); [exact Hnth|now split]
       |intros ->; rewrite Hback; f_equal; now destruct (shown s)].
  pose proof (handleSave_run env (setQuiz (fun _ => closed) (shown s)) Hu Ht)
    as H.
  cbn zeta in H.
  destruct (handleSave env (setQuiz (fun _ => closed) (shown s)))
    as [[r|e] w1] eqn:Erun.
  - destruct H as (quizId & ids & -> & _ & _ & _ & ->). cbn [fst snd]. split.
    + apply (session_save_returns s env n quizId closed); [exact Hnth| |];
        reflexivity.
    + intros ->. now rewrite <- Erun, Hback.
  - destruct H as (pre & req & cur & _ & _ & _ & _ & ->). cbn [fst snd]. split.
    + apply (session_save_ends s n closed); [exact Hnth|now split].
    + intros ->. rewrite Hback in Erun. rewrite Erun. reflexivity.
Qed.

Lemma mainPane_keeps_question_witness :
  let env := Demo.env_with Demo.accepting in
  let pending := mkSession Demo.world1 [Demo.quiz1] in
  keeps_question_ids pending (SaveReturns env 0 "quiz-7")
  /\ mainPane Demo.world1 <> editor None
  /\ mainPane (snd (resume env Demo.quiz1 Demo.world1)) <> editor None.
Proof.
  cbv zeta.
  assert (Hkeeps : keeps_question_ids
                     (mkSession Demo.world1 [Demo.quiz1])
                     (SaveReturns (Demo.env_with Demo.accepting) 0 "quiz-7"))
    by (intros i Hi; exact Hi).
  assert (Hpane : mainPane Demo.world1 <> editor None) by discriminate.
  split; [exact Hkeeps|]. split; [exact Hpane|].
  refine (mainPane_keeps_question
            (mkSession Demo.world1 [Demo.quiz1])
            (mkSession (snd (resume (Demo.env_with Demo.accepting)
                                    Demo.quiz1 Demo.world1)) [])
            (SaveReturns (Demo.env_with Demo.accepting) 0 "quiz-7")
            _ Hkeeps Hpane).
  apply (session_save_returns (mkSession Demo.world1 [Demo.quiz1])
           (Demo.env_with Demo.accepting) 0 "quiz-7" Demo.quiz1);
    reflexivity.
Defined.

Lemma add_during_save_is_lost_witness :
  let env := Demo.env_with Demo.accepting in
  let edited := handleAddQuestion "q2" Demo.world1 in
  mainPane edited
  = editor (Some (Question.mk "q2" "puzzle" "" None None []))
  /\ mainPane (snd (resume env Demo.quiz1 edited)) = editor None.
Proof.
  cbv zeta. split; [reflexivity|].
  refine (proj2 (proj2 (proj2
    (add_during_save_is_lost
       Demo.session1
       (mkSession Demo.world1 [Demo.quiz1])
       (mkSession (handleAddQuestion "q2" Demo.world1) [Demo.quiz1])
       (mkSession (snd (resume (Demo.env_with Demo.accepting) Demo.quiz1
                               (handleAddQuestion "q2" Demo.world1))) [])
       "q2" (Demo.env_with Demo.accepting) "quiz-7" _ _ _ _ _)))).
  - apply (session_save_starts Demo.session1 Demo.world1). now split.
  - apply (session_handler (mkSession Demo.world1 [Demo.quiz1])
             (AddQuestion "q2")).
  - apply (session_save_returns
             (mkSession (handleAddQuestion "q2" Demo.world1) [Demo.quiz1])
             (Demo.env_with Demo.accepting) 0 "quiz-7" Demo.quiz1);
      reflexivity.
  - discriminate.
  - cbn. intuition discriminate.
Defined.

Lemma resume_is_a_step_witness :
  resume (Demo.env_with Demo.accepting) Demo.quiz1 Demo.world1
  = handleSave (Demo.env_with Demo.accepting) Demo.world1.
Proof.
  exact (proj2 (resume_is_a_step (Demo.env_with Demo.accepting)
                  (mkSession Demo.world1 [Demo.quiz1]) 0 Demo.quiz1
                  eq_refl) eq_refl).
Defined.

End MainPane.

(* ================================================================= *)
(** ** Further runs on the demo quiz *)

Section SaveMoreRuns.
Import QuizEditor.

Lemma handleSave_no_questions_witness :
  fst (handleSave (Demo.env_with Demo.accepting) Demo.world0)
  = Val (Some (updatedQuiz (Demo.env_with Demo.accepting) Demo.empty_quiz
                           "quiz-7"))
  /\ requests (snd (handleSave (Demo.env_with Demo.accepting) Demo.world0))
     = [quizRequest "secret" "user-1" Demo.empty_quiz].
Proof.
  refine (handleSave_no_questions (Demo.env_with Demo.accepting) Demo.world0
            "quiz-7" eq_refl eq_refl eq_refl _).
  exists Demo.created, (mkJson "quiz-7" "question-9"). repeat split.
Defined.

Lemma handleSave_resets_flags_witness :
  isSaving (snd (handleSave (Demo.env_with Demo.refusing_questions)
                            Demo.world1)) = false
  /\ saveProgress (snd (handleSave (Demo.env_with Demo.refusing_questions)
                                   Demo.world1)) = None.
Proof.
  exact (handleSave_resets_flags (Demo.env_with Demo.refusing_questions)
           Demo.world1 eq_refl eq_refl).
Defined.

Lemma handleSave_success_witness :
  saved (snd (handleSave (Demo.env_with Demo.accepting) Demo.world1))
  = [updatedQuiz (Demo.env_with Demo.accepting) Demo.quiz1 "quiz-7"]
  /\ currentQuizId (snd (handleSave (Demo.env_with Demo.accepting)
                                    Demo.world1)) = Some "quiz-7".
Proof.
  destruct (handleSave_success (Demo.env_with Demo.accepting) Demo.world1
              (snd (handleSave (Demo.env_with Demo.accepting) Demo.world1))
              (updatedQuiz (Demo.env_with Demo.accepting) Demo.quiz1 "quiz-7")
              eq_refl) as (Hsaved & _ & Hcur & _).
  split; [exact Hsaved|exact Hcur].
Defined.

Lemma handleSave_failure_witness :
  quiz (snd (handleSave (Demo.env_with Demo.refusing_questions) Demo.world1))
  = Demo.quiz1
  /\ saved (snd (handleSave (Demo.env_with Demo.refusing_questions)
                            Demo.world1)) = [].
Proof.
  destruct (handleSave_failure (Demo.env_with Demo.refusing_questions)
              Demo.world1
              (snd (handleSave (Demo.env_with Demo.refusing_questions)
                               Demo.world1))
              (JsError "Failed to save question: q1") eq_refl)
    as (Hquiz & Hsaved & _).
  split; [exact Hquiz|exact Hsaved].
Defined.

Lemma handleSave_twice_witness :
  exists rest,
    requests (snd (handleSave (Demo.env_with Demo.accepting)
                     (snd (handleSave (Demo.env_with Demo.accepting)
                                      Demo.world1))))
    = requests (snd (handleSave (Demo.env_with Demo.accepting) Demo.world1))
        ++ deleteRequest "secret" "quiz-7"
        :: quizRequest "secret" "user-1"
             (updatedQuiz (Demo.env_with Demo.accepting) Demo.quiz1 "quiz-7")
        :: rest.
Proof.
  refine (handleSave_twice (Demo.env_with Demo.accepting) Demo.world1
            (snd (handleSave (Demo.env_with Demo.accepting) Demo.world1))
            (updatedQuiz (Demo.env_with Demo.accepting) Demo.quiz1 "quiz-7")
            eq_refl _).
  discriminate.
Defined.

Lemma handleSave_request_count_witness :
  length (requests (snd (handleSave (Demo.env_with Demo.accepting)
                                    Demo.world1))) = 6.
Proof.
  exact (handleSave_request_count (Demo.env_with Demo.accepting) Demo.world1
           (snd (handleSave (Demo.env_with Demo.accepting) Demo.world1))
           (updatedQuiz (Demo.env_with Demo.accepting) Demo.quiz1 "quiz-7")
           eq_refl).
Defined.

Lemma handleSave_own_errors_witness :
  exists pre req resp,
    requests (snd (handleSave (Demo.env_with Demo.refusing_questions)
                              Demo.world1))
    = pre ++ [req]
    /\ Demo.refusing_questions pre req = Resolved resp
    /\ ok resp = false
    /\ reports "secret" "user-1" Demo.quiz1 "Failed to save question: q1" req.
Proof.
  exact (handleSave_own_errors (Demo.env_with Demo.refusing_questions)
           Demo.world1
           (snd (handleSave (Demo.env_with Demo.refusing_questions)
                            Demo.world1))
           "Failed to save question: q1" eq_refl).
Defined.

Lemma lenient_answers_creates : answers_creates Demo.lenient.
Proof.
  intros history r _. unfold Demo.lenient.
  destruct (checked r).
  - exists Demo.created. split; [reflexivity|]. intros _. split; [reflexivity|discriminate].
  - exists Demo.server_error. split; [reflexivity|discriminate].
Defined.

Lemma handleSave_unchecked_answers_witness :
  answers_creates Demo.lenient
  /\ exists r, fst (handleSave (Demo.env_with Demo.lenient) Demo.world1)
               = Val (Some r).
Proof.
  split; [exact lenient_answers_creates|].
  exact (handleSave_unchecked_answers (Demo.env_with Demo.lenient) Demo.world1
           eq_refl eq_refl lenient_answers_creates).
Defined.

Lemma quiz_create_failure_keeps_storage_witness :
  currentQuizId (snd (handleSave (Demo.env_with Demo.unreachable) Demo.world1))
  = Some "quiz-6"
  /\ requests (snd (handleSave (Demo.env_with Demo.unreachable) Demo.world1))
     = [deleteRequest "secret" "quiz-6";
        quizRequest "secret" "user-1" Demo.quiz1].
Proof.
  destruct (quiz_create_failure_keeps_storage (Demo.env_with Demo.unreachable)
              Demo.world1 eq_refl eq_refl eq_refl) as (Hcur & Hreq & _).
  split; [exact Hcur|exact Hreq].
Defined.

Lemma handleSaveAndContinue_signed_out_witness :
  navigated (handleSaveAndContinue Demo.signed_out Demo.shell1)
  = [("/", None)]
  /\ requests (world (handleSaveAndContinue Demo.signed_out Demo.shell1)) = []
  /\ saved (world (handleSaveAndContinue Demo.signed_out Demo.shell1)) = [].
Proof.
  destruct (handleSaveAndContinue_signed_out Demo.signed_out Demo.shell1
              (or_introl eq_refl)) as (Hnav & _ & _ & Hreq & Hsaved & _).
  split; [exact Hnav|]. split; [exact Hreq|exact Hsaved].
Defined.

Lemma handleSaveAndContinue_failure_witness :
  navigated (handleSaveAndContinue (Demo.env_with Demo.refusing_questions)
                                   Demo.shell1) = []
  /\ toasts (world (handleSaveAndContinue
                      (Demo.env_with Demo.refusing_questions) Demo.shell1))
     = [error_toast; save_and_continue_toast].
Proof.
  destruct (handleSaveAndContinue_failure
              (Demo.env_with Demo.refusing_questions) Demo.shell1
              (JsError "Failed to save question: q1")
              (snd (handleSave (Demo.env_with Demo.refusing_questions)
                               Demo.world1)) eq_refl)
    as (Hnav & _ & _ & Htoasts & _).
  split; [exact Hnav|exact Htoasts].
Defined.

Lemma handleSaveAndContinue_success_witness :
  navigated (handleSaveAndContinue (Demo.env_with Demo.accepting) Demo.shell1)
  = [("/", None)]
  /\ currentQuizId (world (handleSaveAndContinue
                             (Demo.env_with Demo.accepting) Demo.shell1))
     = None.
Proof.
  destruct (handleSaveAndContinue_success (Demo.env_with Demo.accepting)
              Demo.shell1
              (updatedQuiz (Demo.env_with Demo.accepting) Demo.quiz1 "quiz-7")
              (snd (handleSave (Demo.env_with Demo.accepting) Demo.world1))
              eq_refl) as (Hnav & _ & Hcur & _).
  split; [exact Hnav|exact Hcur].
Defined.

Lemma handleBackToDashboard_after_save_witness :
  navigated
    (handleBackToDashboard
       (mkShell (snd (handleSave (Demo.env_with Demo.accepting) Demo.world1))
                false true []))
  = [("/", None)].
Proof.
  refine (f_equal navigated
            (handleBackToDashboard_after_save (Demo.env_with Demo.accepting)
               Demo.shell1
               (updatedQuiz (Demo.env_with Demo.accepting) Demo.quiz1 "quiz-7")
               (snd (handleSave (Demo.env_with Demo.accepting) Demo.world1))
               eq_refl _)).
  discriminate.
Defined.

End SaveMoreRuns.
